(** * snowflake_timetravel: the clause injector and the comparison wrappers

    A shallow embedding of [snowflake_timetravel/utils/timetravel.py] and
    the properties its specification states about it.

    Conventions of the model.
    - A Python [str] is a sequence of code points.  The model has the code
      points below U+0100 (one [ascii] each, read as Latin-1), so a [str]
      is a [list ascii]; the character classes of [re] are CPython's,
      restricted to that range.
    - A function that may raise returns a [result]; a function that talks
      to a collaborator runs in the monad [M], which threads the trace of
      calls made to the outside world.
    - The standard-library calls the module makes ([re.compile(..).sub],
      [datetime.strftime], [format]) are modelled from CPython 3.8 to
      3.11 (the package asks for 3.8 or later); what the C library
      decides ([%Y] of [strftime]) is a field of the outside world. *)

From Stdlib Require Import ZArith Ascii String List Bool Lia.
From Stdlib Require Import DecimalString DecimalZ DecimalPos.
From stdpp Require Import gmap strings list.

Local Open Scope char_scope.
Local Open Scope list_scope.

(** ** Strings *)

Definition str : Type := list ascii.

(** A string literal of the source. *)
Definition lit (s : string) : str := list_ascii_of_string s.

Definition ord (c : ascii) : N := N_of_ascii c.

Definition in_range (lo hi : N) (c : ascii) : bool :=
  (lo <=? ord c)%N && (ord c <=? hi)%N.

Definition is_code (n : N) (c : ascii) : bool := (ord c =? n)%N.

(** ** Character classes of [re] on a [str] pattern *)

(** [\s]: [str.isspace] per character.  Below U+0100 these are TAB..CR,
    FS..US, SPACE, NEL and NBSP. *)
Definition is_space (c : ascii) : bool :=
  in_range 9 13 c || in_range 28 32 c || is_code 133 c || is_code 160 c.

(** [str.isalnum] per character (alphabetic, decimal, digit or numeric). *)
Definition is_alnum (c : ascii) : bool :=
  in_range 48 57 c || in_range 65 90 c || in_range 97 122 c
  || is_code 170 c || in_range 178 179 c || is_code 181 c
  || in_range 185 186 c || in_range 188 190 c
  || in_range 192 214 c || in_range 216 246 c || in_range 248 255 c.

(** [\w]: alphanumeric or underscore. *)
Definition is_word (c : ascii) : bool := is_alnum c || is_code 95 c.

(** The set [[\w\._]] of the pattern. *)
Definition is_ident (c : ascii) : bool :=
  is_word c || is_code 46 c || is_code 95 c.

(** [str.lower] per character, used by [re.IGNORECASE]. *)
Definition py_lower (c : ascii) : ascii :=
  if in_range 65 90 c || (in_range 192 222 c && negb (is_code 215 c))
  then ascii_of_N (ord c + 32) else c.

(** A literal of the pattern under [re.IGNORECASE]. *)
Definition lit_ignorecase (l c : ascii) : bool := Ascii.eqb (py_lower c) l.

(** ** The pattern [from\s+([\w\._]+)\s] *)

(** The longest prefix of [s] whose characters satisfy [p], and the rest. *)
Fixpoint span (p : ascii -> bool) (s : str) : str * str :=
  match s with
  | c :: t =>
      if p c then let '(a, b) := span p t in (c :: a, b) else ([], s)
  | [] => ([], [])
  end.

(** One match of the pattern: the keyword as written, the white space
    after it, group 1 and the white-space character that ends the match. *)
Record fmatch : Type := mk_fmatch {
  m_kw : str;
  m_ws : str;
  m_ident : str;
  m_sp : ascii
}.

(** Group 0: the matched text. *)
Definition m_text (m : fmatch) : str :=
  m_kw m ++ m_ws m ++ m_ident m ++ [m_sp m].

(** The match anchored at the start of [s], with the text after it.
    Both repetitions are greedy; see [match_here_complete] for why the
    engine's backtracking finds no other match. *)
Definition match_here (s : str) : option (fmatch * str) :=
  match s with
  | f :: r :: o :: m :: t =>
      if lit_ignorecase "f" f && lit_ignorecase "r" r
         && lit_ignorecase "o" o && lit_ignorecase "m" m
      then
        match span is_space t with
        | ([], _) => None
        | (ws, t1) =>
            match span is_ident t1 with
            | ([], _) => None
            | (_, []) => None
            | (ident, sp :: t2) =>
                if is_space sp
                then Some (mk_fmatch [f; r; o; m] ws ident sp, t2)
                else None
            end
        end
      else None
  | _ => None
  end.

(** [pattern.sub(repl, s)]: scan from the left; at a match emit its
    replacement and resume after it, otherwise copy one character.
    [skip] counts the characters of the current match still to pass. *)
Fixpoint sub_scan (repl : fmatch -> str) (skip : nat) (s : str) : str :=
  match s with
  | [] => []
  | c :: t =>
      match skip with
      | S k => sub_scan repl k t
      | O =>
          match match_here s with
          | Some (m, _) => repl m ++ sub_scan repl (length (m_text m) - 1) t
          | None => c :: sub_scan repl 0 t
          end
      end
  end.

(** [pattern.finditer(s)]: the successive non-overlapping matches, each
    with the unmatched text before it, and the unmatched tail. *)
Fixpoint find_scan (skip : nat) (gap : str) (s : str)
  : list (str * fmatch) * str :=
  match s with
  | [] => ([], gap)
  | c :: t =>
      match skip with
      | S k => find_scan k gap t
      | O =>
          match match_here s with
          | Some (m, _) =>
              let '(ms, tl) := find_scan (length (m_text m) - 1) [] t in
              ((gap, m) :: ms, tl)
          | None => find_scan 0 (gap ++ [c]) t
          end
      end
  end.

Definition finditer (s : str) : list (str * fmatch) * str := find_scan 0 [] s.

(** The number of FROM clauses of a query: the matches [sub] replaces. *)
Definition from_clauses (s : str) : nat := length (fst (finditer s)).

(** ** Exceptions *)

(** [TemplateError] is the [re.error] of [re]'s template compiler, which
    raises [IndexError] for a group name the pattern does not have;
    [External] is an exception of class [cls] raised by a collaborator. *)
Inductive exn : Type :=
| NameError (name : string)
| AttributeError
| TypeError
| IndexError
| TemplateError
| External (cls : string) (detail : str).

Definition exn_class (e : exn) : string :=
  match e with
  | NameError _ => "NameError"
  | AttributeError => "AttributeError"
  | TypeError => "TypeError"
  | IndexError => "IndexError"
  | TemplateError => "re.error"
  | External cls _ => cls
  end.

Inductive result (A : Type) : Type :=
| Ok (a : A)
| Raise (e : exn).
Arguments Ok {A} a.
Arguments Raise {A} e.

(** ** Replacement templates of [re]

    [sub] compiles its replacement string with [re]'s template parser
    before it looks at the subject.  The parser below is [parse_template]
    of CPython 3.8 to 3.11, specialised to this pattern: one group, no
    named group.  (From 3.12 on the name in [\g<..>] is a group index only
    when it is made of ASCII digits; a sign, blanks or underscores in it
    are an error there.) *)

Inductive token : Type :=
| TChar (c : ascii)
| TEsc (c : ascii)    (* a backslash and the character after it *)
| TEnd.               (* a backslash that ends the template *)

Fixpoint tokenize (s : str) : list token :=
  match s with
  | [] => []
  | c :: t =>
      if Ascii.eqb c "\" then
        match t with
        | [] => [TEnd]
        | e :: t' => TEsc e :: tokenize t'
        end
      else TChar c :: tokenize t
  end.

(** The tokenizer reads one token ahead and raises when it meets [TEnd]:
    the token before [TEnd] is never acted upon. *)
Definition dangling (ts : list token) : bool :=
  match ts with
  | TEnd :: _ => true
  | _ => false
  end.

Inductive titem : Type :=
| ILit (s : str)
| IGroup (n : nat).

Definition is_digit (c : ascii) : bool := in_range 48 57 c.
Definition is_octdigit (c : ascii) : bool := in_range 48 55 c.
Definition is_asciiletter (c : ascii) : bool :=
  in_range 65 90 c || in_range 97 122 c.
Definition digit_val (c : ascii) : N := (ord c - 48)%N.

(** The table [ESCAPES] of the parser. *)
Definition escape_char (c : ascii) : option ascii :=
  if Ascii.eqb c "a" then Some (ascii_of_N 7)
  else if Ascii.eqb c "b" then Some (ascii_of_N 8)
  else if Ascii.eqb c "f" then Some (ascii_of_N 12)
  else if Ascii.eqb c "n" then Some (ascii_of_N 10)
  else if Ascii.eqb c "r" then Some (ascii_of_N 13)
  else if Ascii.eqb c "t" then Some (ascii_of_N 9)
  else if Ascii.eqb c "v" then Some (ascii_of_N 11)
  else if Ascii.eqb c "\" then Some "\"
  else None.

(** [addgroup]: the pattern has one group, so only 0 and 1 are valid. *)
Definition group_ref (index : N) : result titem :=
  if (index <=? 1)%N then Ok (IGroup (N.to_nat index))
  else Raise TemplateError.

(** [str.isidentifier]. *)
Definition is_xid_start (c : ascii) : bool :=
  is_asciiletter c || is_code 95 c || is_code 170 c || is_code 181 c
  || is_code 186 c || in_range 192 214 c || in_range 216 246 c
  || in_range 248 255 c.

Definition is_xid_continue (c : ascii) : bool :=
  is_xid_start c || is_digit c || is_code 183 c.

Definition isidentifier (s : str) : bool :=
  match s with
  | [] => false
  | c :: t => is_xid_start c && forallb is_xid_continue t
  end.

(** The white space [int] passes over: the ASCII blanks, and NEL and
    NBSP. *)
Definition is_int_space (c : ascii) : bool :=
  in_range 9 13 c || is_code 32 c || is_code 133 c || is_code 160 c.

(** The digits of a numeral after its first digit: single underscores
    may stand between digits, and white space may follow. *)
Fixpoint int_digits (acc : N) (s : str) : option N :=
  match s with
  | [] => Some acc
  | c :: t =>
      if is_digit c then int_digits (acc * 10 + digit_val c) t
      else if is_code 95 c then
        match t with
        | d :: t' =>
            if is_digit d then int_digits (acc * 10 + digit_val d) t'
            else None
        | [] => None
        end
      else if forallb is_int_space s then Some acc else None
  end.

(** [int(s)] for a [str]; [None] stands for [ValueError].  (The limit
    the interpreter may set on the number of digits is left out.) *)
Definition py_int (s : str) : option Z :=
  let body := snd (span is_int_space s) in
  let '(negative, digits) :=
    match body with
    | c :: t =>
        if is_code 43 c then (false, t)
        else if is_code 45 c then (true, t)
        else (false, body)
    | [] => (false, body)
    end in
  match digits with
  | d :: t =>
      if is_digit d then
        option_map (fun n => if negative : bool then (- Z.of_N n)%Z
                             else Z.of_N n)
                   (int_digits (digit_val d) t)
      else None
  | [] => None
  end.

(** The characters of the tokens collected as a group name. *)
Definition name_text (name : list token) : str :=
  flat_map (fun tk =>
              match tk with
              | TChar c => [c]
              | TEsc c => ["\"; c]
              | TEnd => ["\"]
              end) name.

(** The index named by [\g<name>]: an identifier is looked up among the
    named groups, of which the pattern has none; any other name is read
    with [int] and must not be negative. *)
Definition group_name_index (name : list token) : result N :=
  if isidentifier (name_text name) then Raise IndexError
  else
    match py_int (name_text name) with
    | Some z => if (z <? 0)%Z then Raise TemplateError else Ok (Z.to_N z)
    | None => Raise TemplateError
    end.

(** An item is added before the rest of the template is parsed. *)
Definition emit (it : result titem) (rest : result (list titem))
  : result (list titem) :=
  match it with
  | Raise e => Raise e
  | Ok i =>
      match rest with
      | Ok r => Ok (i :: r)
      | Raise e => Raise e
      end
  end.

(** [parse_template].  [name] is [Some acc] while the parser is inside
    [\g<...], collecting the group name up to [>]. *)
Fixpoint parse_tokens (name : option (list token)) (ts : list token)
  : result (list titem) :=
  match name with
  | Some acc =>
      match ts with
      | [] => Raise TemplateError
      | tk :: t =>
          match tk with
          | TEnd => Raise TemplateError
          | TChar ">" =>
              if dangling t then Raise TemplateError
              else
                match group_name_index acc with
                | Ok i => emit (group_ref i) (parse_tokens None t)
                | Raise e => Raise e
                end
          | _ => parse_tokens (Some (acc ++ [tk])) t
          end
      end
  | None =>
      match ts with
      | [] => Ok []
      | TEnd :: _ => Raise TemplateError
      | TChar c :: t => emit (Ok (ILit [c])) (parse_tokens None t)
      | TEsc c :: t =>
          if Ascii.eqb c "g" then
            match t with
            | TChar "<" :: t' => parse_tokens (Some []) t'
            | _ => Raise TemplateError
            end
          else if Ascii.eqb c "0" then
            match t with
            | TChar d1 :: t1 =>
                if is_octdigit d1 then
                  match t1 with
                  | TChar d2 :: t2 =>
                      if is_octdigit d2 then
                        emit (Ok (ILit [ascii_of_N
                                (N.land (digit_val d1 * 8 + digit_val d2) 255)]))
                             (parse_tokens None t2)
                      else emit (Ok (ILit [ascii_of_N (digit_val d1)]))
                                (parse_tokens None t1)
                  | _ => emit (Ok (ILit [ascii_of_N (digit_val d1)]))
                              (parse_tokens None t1)
                  end
                else emit (Ok (ILit [ascii_of_N 0])) (parse_tokens None t)
            | _ => emit (Ok (ILit [ascii_of_N 0])) (parse_tokens None t)
            end
          else if is_digit c then
            match t with
            | TChar d1 :: t1 =>
                if is_digit d1 then
                  match t1 with
                  | TChar d2 :: t2 =>
                      if is_octdigit c && is_octdigit d1 && is_octdigit d2 then
                        let v := (digit_val c * 64 + digit_val d1 * 8
                                  + digit_val d2)%N in
                        if (255 <? v)%N then Raise TemplateError
                        else emit (Ok (ILit [ascii_of_N v]))
                                  (parse_tokens None t2)
                      else emit (group_ref (digit_val c * 10 + digit_val d1))
                                (parse_tokens None t1)
                  | _ => emit (group_ref (digit_val c * 10 + digit_val d1))
                              (parse_tokens None t1)
                  end
                else emit (group_ref (digit_val c)) (parse_tokens None t)
            | _ => emit (group_ref (digit_val c)) (parse_tokens None t)
            end
          else
            match escape_char c with
            | Some e => emit (Ok (ILit [e])) (parse_tokens None t)
            | None =>
                if is_asciiletter c then Raise TemplateError
                else emit (Ok (ILit ["\"; c])) (parse_tokens None t)
            end
      end
  end.

(** [_compile_repl]: the items of the template, or what the parser
    raises. *)
Definition compile_repl (template : str) : result (list titem) :=
  parse_tokens None (tokenize template).

(** The compiled template, when there is one. *)
Definition parse_template (template : str) : option (list titem) :=
  match compile_repl template with
  | Ok items => Some items
  | Raise _ => None
  end.

(** The text a compiled template stands for at a match. *)
Definition expand_item (m : fmatch) (it : titem) : str :=
  match it with
  | ILit s => s
  | IGroup O => m_text m
  | IGroup (S _) => m_ident m
  end.

Definition expand (items : list titem) (m : fmatch) : str :=
  flat_map (expand_item m) items.

(** ** Values and the outside world *)

(** A [datetime.datetime]; [utcoffset] is the offset, in minutes, of an
    aware value. *)
Record datetime : Type := mk_datetime {
  year : Z;
  month : Z;
  day : Z;
  hour : Z;
  minute : Z;
  second : Z;
  microsecond : Z;
  utcoffset : option Z
}.

(** The values the module handles.  [VObj] is an object of any other type
    (a connection, a cursor, a parameter mapping, a DataFrame, a module, a
    float, ...), known to the model only through the outside world. *)
Inductive value : Type :=
| VNone
| VBool (b : bool)
| VInt (z : Z)
| VStr (s : str)
| VDatetime (d : datetime)
| VEmptyDict
| VObj (id : nat).

(** A call made to an object of the outside world: [obj.name(args)]. *)
Inductive event : Type :=
| Called (obj : value) (name : string) (args : list value).

(** The outside world: what objects answer, given the calls made so far,
    and the C library under the interpreter.  [pads_year] says whether its
    [strftime] writes [%Y] with four digits (as on Windows and macOS) or
    with the digits the year has (as glibc does). *)
Record world : Type := mk_world {
  format_obj : nat -> str;                       (* format(obj, '') *)
  truth_obj : nat -> bool;                       (* bool(obj) *)
  getattr_obj : list event -> nat -> string -> result value;
  call_obj : list event -> nat -> string -> list value -> result value;
  iter_obj : list event -> nat -> result (list value);
  getitem_obj : list event -> nat -> Z -> result value;
  pads_year : bool
}.

(** A world whose objects have nothing to say, on glibc. *)
Definition quiet_world : world :=
  mk_world (fun _ => []) (fun _ => false)
           (fun _ _ _ => Raise AttributeError)
           (fun _ _ _ _ => Raise AttributeError)
           (fun _ _ => Raise TypeError)
           (fun _ _ _ => Raise TypeError)
           false.

(** ** Formatting *)

(** [str(n)] for an [int]. *)
Definition dec (n : Z) : str := lit (NilZero.string_of_int (Z.to_int n)).

(** [%0<width>d] for a number that is not negative. *)
Definition zpad (width : nat) (n : Z) : str :=
  repeat "0" (width - length (dec n)) ++ dec n.

(** [%Y] of the C library's [strftime]. *)
Definition year_text (w : world) (y : Z) : str :=
  if pads_year w then zpad 4 y else dec y.

(** [d.strftime("%Y-%m-%d %H:%M:%S")]: the directives are handed to the C
    library, which writes the month, day, hour, minute and second with
    two digits each. *)
Definition strftime (w : world) (d : datetime) : str :=
  year_text w (year d) ++ lit "-" ++ zpad 2 (month d) ++ lit "-"
  ++ zpad 2 (day d) ++ lit " " ++ zpad 2 (hour d) ++ lit ":"
  ++ zpad 2 (minute d) ++ lit ":" ++ zpad 2 (second d).

(** [str(d)]: [d.isoformat(sep=' ')], which the interpreter formats
    itself, the year with four digits. *)
Definition str_datetime (d : datetime) : str :=
  zpad 4 (year d) ++ lit "-" ++ zpad 2 (month d) ++ lit "-" ++ zpad 2 (day d)
  ++ lit " " ++ zpad 2 (hour d) ++ lit ":" ++ zpad 2 (minute d)
  ++ lit ":" ++ zpad 2 (second d)
  ++ (if (microsecond d =? 0)%Z then [] else lit "." ++ zpad 6 (microsecond d))
  ++ match utcoffset d with
     | None => []
     | Some off =>
         (if (off <? 0)%Z then lit "-" else lit "+")
         ++ zpad 2 (Z.abs off / 60) ++ lit ":" ++ zpad 2 (Z.abs off mod 60)
     end.

(** [format(v, '')], what an f-string field [{v}] expands to. *)
Definition py_format (w : world) (v : value) : str :=
  match v with
  | VNone => lit "None"
  | VBool true => lit "True"
  | VBool false => lit "False"
  | VInt z => dec z
  | VStr s => s
  | VDatetime d => str_datetime d
  | VEmptyDict => lit "{}"
  | VObj id => format_obj w id
  end.

(** [bool(v)]. *)
Definition truthy (w : world) (v : value) : bool :=
  match v with
  | VNone => false
  | VBool b => b
  | VInt z => negb (z =? 0)%Z
  | VStr s => negb (Nat.eqb (length s) 0)
  | VDatetime _ => true
  | VEmptyDict => false
  | VObj id => truth_obj w id
  end.

(** ** The clause injector *)

(** [from_pattern.sub(template, subject)]: the template is compiled first,
    then the subject must be a [str]. *)
Definition sub_from (template : str) (subject : value) : result value :=
  match compile_repl template with
  | Raise e => Raise e
  | Ok items =>
      match subject with
      | VStr s => Ok (VStr (sub_scan (expand items) 0 s))
      | _ => Raise TypeError
      end
  end.

(** The replacement [f'from \\1 {time_travel_clause} ']. *)
Definition replacement (time_travel_clause : str) : str :=
  lit "from \1 " ++ time_travel_clause ++ lit " ".

Definition modify_from_clause_for_timetravel
  (query : value) (time_travel_clause : str) : result value :=
  sub_from (replacement time_travel_clause) query.

(** ** The timestamp qualifier *)

(** The [if]/[elif]/[else] that opens [query_at_time].  A [bool] is an
    [int] for [isinstance]; an object of the outside world is neither an
    [int] nor a [datetime]. *)
Definition time_travel_clause_of (w : world) (timestamp : value) : str :=
  match timestamp with
  | VInt _ | VBool _ =>
      lit "AT (TIMESTAMP => DATEADD(DAY, -" ++ py_format w timestamp
      ++ lit ", CURRENT_TIMESTAMP()))"
  | VDatetime d => lit "AT (TIMESTAMP => '" ++ strftime w d ++ lit "')"
  | _ => lit "AT (TIMESTAMP => '" ++ py_format w timestamp ++ lit "')"
  end.

(** The clause [query_at_offset] builds from [days_ago]. *)
Definition offset_clause (w : world) (days_ago : value) : str :=
  lit "AT (TIMESTAMP => DATEADD(DAY, -" ++ py_format w days_ago
  ++ lit ", CURRENT_TIMESTAMP()))".

(** ** Running the module's functions *)

(** A computation: from the calls made so far to an outcome and the calls
    made when it ends. *)
Definition M (A : Type) : Type := list event -> result A * list event.

Definition ret {A : Type} (a : A) : M A := fun tr => (Ok a, tr).

Definition raise {A : Type} (e : exn) : M A := fun tr => (Raise e, tr).

Definition bind {A B : Type} (m : M A) (k : A -> M B) : M B :=
  fun tr =>
    match m tr with
    | (Ok a, tr') => k a tr'
    | (Raise e, tr') => (Raise e, tr')
    end.

Definition lift {A : Type} (r : result A) : M A := fun tr => (r, tr).

Notation "'do' x <- m ;; k" := (bind m (fun x => k))
  (at level 10, x name, m at level 99, k at level 200, only parsing).

Fixpoint mapM {A B : Type} (f : A -> M B) (l : list A) : M (list B) :=
  match l with
  | [] => ret []
  | a :: t => do b <- f a ;; do bs <- mapM f t ;; ret (b :: bs)
  end.

Section Runtime.

(** The outside world, and the global namespace of the module: the
    names its functions do not bind themselves are read from [G].  The
    names of the module's own functions and of [re] and [datetime] are
    resolved to the definitions here. *)
Variable w : world.
Variable G : gmap string value.

(** Reading a free name: a name the namespace lacks ([connection] and
    [params] are not built-ins either) raises [NameError]. *)
Definition load_name (name : string) : M value :=
  match G !! name with
  | Some v => ret v
  | None => raise (NameError name)
  end.

(** [obj.name]; the built-in values have none of the attributes the
    module reads. *)
Definition getattr (obj : value) (name : string) : M value :=
  fun tr =>
    match obj with
    | VObj id => (getattr_obj w tr id name, tr)
    | _ => (Raise AttributeError, tr)
    end.

(** [hasattr(obj, name)]: only [AttributeError] means no. *)
Definition hasattr (obj : value) (name : string) : M bool :=
  fun tr =>
    match getattr obj name tr with
    | (Ok _, tr') => (Ok true, tr')
    | (Raise AttributeError, tr') => (Ok false, tr')
    | (Raise e, tr') => (Raise e, tr')
    end.

(** Calling the bound method [obj.name] with [args]: the call is
    recorded, and the world answers. *)
Definition invoke (obj : value) (name : string) (args : list value)
  : M value :=
  fun tr =>
    match obj with
    | VObj id => (call_obj w tr id name args, tr ++ [Called obj name args])
    | _ => (Raise AttributeError, tr)
    end.

(** [obj.name(args)] when the arguments are already values. *)
Definition call_method (obj : value) (name : string) (args : list value)
  : M value :=
  do _ <- getattr obj name ;; invoke obj name args.

(** The elements a [for] draws from [v]. *)
Definition iterate (v : value) : M (list value) :=
  fun tr =>
    match v with
    | VStr s => (Ok (map (fun c => VStr [c]) s), tr)
    | VEmptyDict => (Ok [], tr)
    | VObj id => (iter_obj w tr id, tr)
    | _ => (Raise TypeError, tr)
    end.

(** [v[0]]. *)
Definition getitem0 (v : value) : M value :=
  fun tr =>
    match v with
    | VStr (c :: _) => (Ok (VStr [c]), tr)
    | VStr [] => (Raise IndexError, tr)
    | VObj id => (getitem_obj w tr id 0, tr)
    | _ => (Raise TypeError, tr)
    end.

Definition execute_query
  (query data_connection_name cast_decimals : value) : M value :=
  do c <- load_name "connection" ;;
  do b <- hasattr c "execute" ;;
  if b : bool then
    (* return connection.execute(query, params) *)
    do c <- load_name "connection" ;;
    do _ <- getattr c "execute" ;;
    do p <- load_name "params" ;;
    invoke c "execute" [query; p]
  else
    (* cursor = connection.cursor() *)
    do c <- load_name "connection" ;;
    do cursor <- call_method c "cursor" [] ;;
    (* cursor.execute(query, params or {}) *)
    do _ <- getattr cursor "execute" ;;
    do p <- load_name "params" ;;
    do _ <- invoke cursor "execute"
           [query; if truthy w p then p else VEmptyDict] ;;
    (* columns = [desc[0] for desc in cursor.description] *)
    do description <- getattr cursor "description" ;;
    do descs <- iterate description ;;
    do columns <- mapM getitem0 descs ;;
    (* data = cursor.fetchall() *)
    do data <- call_method cursor "fetchall" [] ;;
    (* return pd.DataFrame(data, columns=columns): the columns are
       passed after the data *)
    do pd <- load_name "pd" ;;
    call_method pd "DataFrame" (data :: columns).

Definition query_at_time
  (query timestamp db_name data_connection_name params cast_decimals : value)
  : M value :=
  let time_travel_clause := time_travel_clause_of w timestamp in
  do time_travel_query <-
    lift (modify_from_clause_for_timetravel query time_travel_clause) ;;
  (* return execute_query(connection, time_travel_query, params) *)
  do c <- load_name "connection" ;;
  execute_query c time_travel_query params.

Definition query_at_offset
  (query days_ago db_name data_connection_name params cast_decimals : value)
  : M value :=
  let time_travel_clause := offset_clause w days_ago in
  do time_travel_query <-
    lift (modify_from_clause_for_timetravel query time_travel_clause) ;;
  (* return execute_query(connection, time_travel_query, params) *)
  do c <- load_name "connection" ;;
  execute_query c time_travel_query params.

(** The defaults of the parameters the callers below leave out. *)
Definition default_params : value := VNone.
Definition default_cast_decimals : value := VBool true.

Definition compare_timetravel
  (query days_ago db_name data_connection_name params cast_decimals : value)
  : M (value * value) :=
  (* historical_data = query_at_offset(connection, query, days_ago, params) *)
  do c <- load_name "connection" ;;
  do historical_data <-
    query_at_offset c query days_ago params
                    default_params default_cast_decimals ;;
  (* current_data = execute_query(connection, query, params) *)
  do c <- load_name "connection" ;;
  do current_data <- execute_query c query params ;;
  ret (current_data, historical_data).

End Runtime.

(** The names the module binds at its top level, in the order of its
    [import] and [def] statements (besides the dunder names every module
    has); each is bound to an object of its own. *)
Definition module_names : list string :=
  [ "pd"; "Optional"; "Union"; "Dict"; "Any"; "List"; "Tuple"; "datetime";
    "re"; "modify_from_clause_for_timetravel"; "typing"; "hextoolkit";
    "sql_cell"; "execute_query"; "query_at_time"; "query_at_offset";
    "compare_timetravel"; "visualize_comparison" ]%string.

Definition module_globals : gmap string value :=
  list_to_map (imap (fun i name => (name, VObj i)) module_names).

(** ** The toolkit cell *)

Section Toolkit.

Variable w : world.
Variable G : gmap string value.

(** The keyword argument [cast_decimals=cast_decimals] is passed after
    the source. *)
Definition sql_cell (source data_connection_name cast_decimals : value)
  : M value :=
  if truthy w data_connection_name then
    (* hex_data_connection = hextoolkit.get_data_connection(name) *)
    do hextoolkit <- load_name G "hextoolkit" ;;
    do hex_data_connection <-
      call_method w hextoolkit "get_data_connection" [data_connection_name] ;;
    (* return hex_data_connection.query(source, cast_decimals=...) *)
    call_method w hex_data_connection "query" [source; cast_decimals]
  else
    (* return hextoolkit.query_dataframes(source, cast_decimals=...) *)
    do hextoolkit <- load_name G "hextoolkit" ;;
    call_method w hextoolkit "query_dataframes" [source; cast_decimals].

End Toolkit.

(** ** Calling the wrappers

    How Python binds the arguments of a call to the parameters of a [def]
    without [*args] or [**kwargs]: the positional arguments fill the
    parameters from the left, each keyword argument fills the parameter of
    its name, and what is left takes its default.  Too many positional
    arguments, an unknown keyword, a parameter given twice and a parameter
    left without a value each raise [TypeError]. *)

Record param : Type := mk_param {
  p_name : string;
  p_default : option value
}.

Fixpoint fill_positional (sig : list param) (pos : list value)
  : result (list (param * option value)) :=
  match sig, pos with
  | _, [] => Ok (map (fun p => (p, None)) sig)
  | [], _ :: _ => Raise TypeError
  | p :: sig', v :: pos' =>
      match fill_positional sig' pos' with
      | Ok slots => Ok ((p, Some v) :: slots)
      | Raise e => Raise e
      end
  end.

Fixpoint fill_keyword (slots : list (param * option value))
  (name : string) (v : value) : result (list (param * option value)) :=
  match slots with
  | [] => Raise TypeError
  | (p, cur) :: rest =>
      if String.eqb (p_name p) name then
        match cur with
        | Some _ => Raise TypeError
        | None => Ok ((p, Some v) :: rest)
        end
      else
        match fill_keyword rest name v with
        | Ok rest' => Ok ((p, cur) :: rest')
        | Raise e => Raise e
        end
  end.

Fixpoint fill_keywords (slots : list (param * option value))
  (kw : list (string * value)) : result (list (param * option value)) :=
  match kw with
  | [] => Ok slots
  | (name, v) :: kw' =>
      match fill_keyword slots name v with
      | Ok slots' => fill_keywords slots' kw'
      | Raise e => Raise e
      end
  end.

Fixpoint fill_defaults (slots : list (param * option value))
  : result (list value) :=
  match slots with
  | [] => Ok []
  | (p, cur) :: rest =>
      match (match cur with Some v => Some v | None => p_default p end) with
      | None => Raise TypeError
      | Some v =>
          match fill_defaults rest with
          | Ok vs => Ok (v :: vs)
          | Raise e => Raise e
          end
      end
  end.

Definition bind_arguments (sig : list param) (pos : list value)
  (kw : list (string * value)) : result (list value) :=
  match fill_positional sig pos with
  | Raise e => Raise e
  | Ok slots =>
      match fill_keywords slots kw with
      | Raise e => Raise e
      | Ok slots' => fill_defaults slots'
      end
  end.

(** The parameter lists of the three wrappers. *)
Definition query_at_time_params : list param :=
  [ mk_param "query" None; mk_param "timestamp" None; mk_param "db_name" None;
    mk_param "data_connection_name" (Some (VStr (lit "Analytics")));
    mk_param "params" (Some VNone);
    mk_param "cast_decimals" (Some (VBool true)) ].

Definition query_at_offset_params : list param :=
  [ mk_param "query" None; mk_param "days_ago" None; mk_param "db_name" None;
    mk_param "data_connection_name" (Some (VStr (lit "Analytics")));
    mk_param "params" (Some VNone);
    mk_param "cast_decimals" (Some (VBool true)) ].

Definition compare_timetravel_params : list param :=
  [ mk_param "query" None; mk_param "days_ago" (Some (VInt 7));
    mk_param "db_name" (Some VNone);
    mk_param "data_connection_name" (Some (VStr (lit "Analytics")));
    mk_param "params" (Some VNone);
    mk_param "cast_decimals" (Some (VBool true)) ].

(** A call of a function of six parameters: bind, then run the body. *)
Definition call6 {A : Type} (sig : list param)
  (body : value -> value -> value -> value -> value -> value -> M A)
  (pos : list value) (kw : list (string * value)) : M A :=
  match bind_arguments sig pos kw with
  | Ok [a1; a2; a3; a4; a5; a6] => body a1 a2 a3 a4 a5 a6
  | Ok _ => raise TypeError
  | Raise e => raise e
  end.

(** The parameter list of [execute_query]. *)
Definition execute_query_params : list param :=
  [ mk_param "query" None;
    mk_param "data_connection_name" (Some (VStr (lit "Analytics")));
    mk_param "cast_decimals" (Some (VBool true)) ].

(** A call of a function of three parameters. *)
Definition call3 {A : Type} (sig : list param)
  (body : value -> value -> value -> M A)
  (pos : list value) (kw : list (string * value)) : M A :=
  match bind_arguments sig pos kw with
  | Ok [a1; a2; a3] => body a1 a2 a3
  | Ok _ => raise TypeError
  | Raise e => raise e
  end.

Definition call_execute_query (w : world) (G : gmap string value)
  : list value -> list (string * value) -> M value :=
  call3 execute_query_params (execute_query w G).

Definition call_query_at_time (w : world) (G : gmap string value)
  : list value -> list (string * value) -> M value :=
  call6 query_at_time_params (query_at_time w G).

Definition call_query_at_offset (w : world) (G : gmap string value)
  : list value -> list (string * value) -> M value :=
  call6 query_at_offset_params (query_at_offset w G).

Definition call_compare_timetravel (w : world) (G : gmap string value)
  : list value -> list (string * value) -> M (value * value) :=
  call6 compare_timetravel_params (compare_timetravel w G).

(** ** The comparison chart

    The frames and the figure are known by their content: a frame by its
    columns, whose labels are distinct, and a figure by the traces added
    to it, in order, and the layout set on it. *)

Inductive viz_exn : Type :=
| ImportError (msg : str)
| KeyError (key : str).

Inductive vresult (A : Type) : Type :=
| VOk (a : A)
| VRaise (e : viz_exn).
Arguments VOk {A} a.
Arguments VRaise {A} e.

Definition vbind {A B : Type} (r : vresult A) (k : A -> vresult B)
  : vresult B :=
  match r with
  | VOk a => k a
  | VRaise e => VRaise e
  end.

Notation "'let*' x := r 'in' k" := (vbind r (fun x => k))
  (at level 10, x name, r at level 99, k at level 200, only parsing).

Definition column : Type := list value.

Definition frame : Type := list (str * column).

(** [df[label]]. *)
Fixpoint frame_get (df : frame) (label : str) : vresult column :=
  match df with
  | [] => VRaise (KeyError label)
  | (l, c) :: rest =>
      if bool_decide (l = label) then VOk c else frame_get rest label
  end.

(** [go.Bar(x, y, name, marker=dict(color, opacity), hovertemplate)] and
    [go.Scatter(x, y, mode, name, line=dict(color, width), hovertemplate)];
    the opacity is written in hundredths. *)
Inductive trace : Type :=
| GoBar (x y : column) (name : str) (marker_color : str)
        (marker_opacity : Z) (hovertemplate : str)
| GoScatter (x y : column) (mode : str) (name : str) (line_color : str)
            (line_width : Z) (hovertemplate : str).

(** The arguments of [fig.update_layout]; the legend position is written
    in tenths. *)
Record layout : Type := mk_layout {
  l_title : str;
  l_barmode : str;
  l_xaxis_title : str;
  l_xaxis_tickformat : str;
  l_xaxis_tickangle : Z;
  l_xaxis_autorange : str;
  l_yaxis_title : str;
  l_yaxis_tickformat : str;
  l_yaxis_tickprefix : str;
  l_yaxis_ticksuffix : str;
  l_legend_orientation : str;
  l_legend_x : Z;
  l_legend_xanchor : str;
  l_legend_y : Z;
  l_hovermode : str;
  l_template : str;
  l_width : Z;
  l_height : Z
}.

Record figure : Type := mk_figure {
  f_traces : list trace;
  f_layout : layout
}.

(** [f'%{{x|{date_format}}}<br>{label}: $%{{y:,.0f}}K<extra></extra>']. *)
Definition hovertemplate_of (date_format label : str) : str :=
  lit "%{x|" ++ date_format ++ lit "}<br>" ++ label
  ++ lit ": $%{y:,.0f}K<extra></extra>".

(** [chart_type in [a, b]]. *)
Definition chart_in (chart_type : str) (a b : string) : bool :=
  bool_decide (chart_type = lit a) || bool_decide (chart_type = lit b).

(** [plotly] says whether [import plotly.graph_objects] succeeds. *)
Definition visualize_comparison (plotly : bool)
  (current_df historical_df : frame)
  (x_column y_column current_label historical_label title chart_type
     date_format : str) : vresult figure :=
  if negb plotly then
    VRaise (ImportError (lit
      "Plotly is required for visualization. Install with 'pip install plotly'."))
  else
    let* bars :=
      if chart_in chart_type "bar" "both" then
        let* hx := frame_get historical_df x_column in
        let* hy := frame_get historical_df y_column in
        let* cx := frame_get current_df x_column in
        let* cy := frame_get current_df y_column in
        VOk [ GoBar hx hy historical_label (lit "#FFD100") 20
                    (hovertemplate_of date_format historical_label);
              GoBar cx cy current_label (lit "#00E0FF") 20
                    (hovertemplate_of date_format current_label) ]
      else VOk [] in
    let* lines :=
      if chart_in chart_type "line" "both" then
        let* hx := frame_get historical_df x_column in
        let* hy := frame_get historical_df y_column in
        let* cx := frame_get current_df x_column in
        let* cy := frame_get current_df y_column in
        VOk [ GoScatter hx hy (lit "lines")
                        (historical_label ++ lit " Trend") (lit "#FFD100") 4
                        (hovertemplate_of date_format historical_label);
              GoScatter cx cy (lit "lines")
                        (current_label ++ lit " Trend") (lit "#00E0FF") 4
                        (hovertemplate_of date_format current_label) ]
      else VOk [] in
    VOk (mk_figure (bars ++ lines)
           (mk_layout title (lit "overlay")
              x_column date_format 90 (lit "reversed")
              y_column (lit ",.0f") (lit "$") (lit "K")
              (lit "h") 5 (lit "center") 11
              (lit "x unified") (lit "plotly_white") 1500 600)).

(** * Vocabulary of the properties *)

Definition kw_ok (kw : str) : bool :=
  match kw with
  | [f; r; o; m] =>
      lit_ignorecase "f" f && lit_ignorecase "r" r
      && lit_ignorecase "o" o && lit_ignorecase "m" m
  | _ => false
  end.

(** What the regular expression asks of a match: [from] in any case, one
    or more white-space characters, one or more characters of [[\w\._]],
    one white-space character. *)
Definition valid_match (m : fmatch) : Prop :=
  kw_ok (m_kw m) = true
  /\ m_ws m <> [] /\ forallb is_space (m_ws m) = true
  /\ m_ident m <> [] /\ forallb is_ident (m_ident m) = true
  /\ is_space (m_sp m) = true.

Definition stops (p : ascii -> bool) (s : str) : Prop :=
  match s with
  | [] => True
  | c :: _ => p c = false
  end.

(** Right-nest the concatenations of a goal. *)
Ltac norm_app :=
  repeat (progress (rewrite <- ?app_assoc; simpl)); try reflexivity.

(** The text made of the gaps, of [f] at every match, and of the tail. *)
Definition rebuild (f : fmatch -> str) (ms : list (str * fmatch)) (tl : str)
  : str :=
  flat_map (fun gm => fst gm ++ f (snd gm)) ms ++ tl.

Definition no_backslash (s : str) : bool :=
  forallb (fun c => negb (Ascii.eqb c "\")) s.

Definition plain_items (s : str) : list titem := map (fun c => ILit [c]) s.

(** The compiled form of the module's replacement. *)
Definition replacement_items (time_travel_clause : str) : list titem :=
  plain_items (lit "from ") ++ IGroup 1
  :: plain_items (lit " " ++ time_travel_clause ++ lit " ").

(** The text that replaces a match when the clause has no backslash. *)
Definition qualified (time_travel_clause : str) (m : fmatch) : str :=
  lit "from " ++ m_ident m ++ lit " " ++ time_travel_clause ++ lit " ".

(** [r] is [s] with some text put in at one place. *)
Definition is_insertion (s r : str) : Prop :=
  exists a x b, s = a ++ b /\ r = a ++ x ++ b.

Definition is_insertionb (s r : str) : bool :=
  existsb
    (fun n =>
       bool_decide (firstn n s = firstn n r)
       && bool_decide (skipn n s = skipn (n + (length r - length s)) r))
    (seq 0 (S (length s))).

Definition is_signed_digit (c : ascii) : bool := is_digit c || is_code 45 c.

(** The integer a decimal numeral denotes. *)
Definition read_int (s : str) : option Z :=
  option_map Z.of_int (NilZero.int_of_string (string_of_list_ascii s)).

(** The fields of a [datetime] are in the ranges the type enforces. *)
Definition valid_datetime (d : datetime) : Prop :=
  (1 <= year d <= 9999 /\ 1 <= month d <= 12 /\ 1 <= day d <= 31
   /\ 0 <= hour d <= 23 /\ 0 <= minute d <= 59 /\ 0 <= second d <= 59)%Z.

(** The number a string of decimal digits denotes. *)
Definition digits_value (s : str) : Z :=
  fold_left (fun acc c => acc * 10 + Z.of_N (digit_val c))%Z s 0%Z.

Definition digits_ofb (width : nat) (n : Z) (s : str) : bool :=
  Nat.eqb (length s) width && forallb is_digit s && (digits_value s =? n)%Z.

(** [s] is [n] written with exactly [width] decimal digits. *)
Definition digits_of (width : nat) (n : Z) (s : str) : Prop :=
  length s = width /\ forallb is_digit s = true /\ digits_value s = n.

(** A world of Hex connections: every object has every attribute, and
    every call is answered by [answer]. *)
Definition hex_world (answer : result value) : world :=
  mk_world (fun _ => lit "<object>") (fun _ => true)
           (fun _ _ _ => Ok VNone) (fun _ _ _ _ => answer)
           (fun _ _ => Ok []) (fun _ _ _ => Ok VNone) false.

(** The module's namespace with [connection] and [params] put into it. *)
Definition patched_globals : gmap string value :=
  <["params"%string := VNone]>
    (<["connection"%string := VObj 50]> module_globals).





(** [len] characters of [s] from position [start]. *)
Definition field (s : str) (start len : nat) : str :=
  firstn len (skipn start s).

Definition is_char (c : ascii) (s : str) (pos : nat) : bool :=
  bool_decide (field s pos 1 = [c]).

(** Reading a time stamp Y-MM-DD HH:MM:SS, whose year has one digit or
    more, back into its six numbers. *)
Definition parse_stamp (s : str) : option (Z * Z * Z * Z * Z * Z) :=
  let '(y, r) := span is_digit s in
  if negb (Nat.eqb (length y) 0) && Nat.eqb (length r) 15
     && is_char "-" r 0 && is_char "-" r 3 && is_char " " r 6
     && is_char ":" r 9 && is_char ":" r 12
     && forallb is_digit (field r 1 2) && forallb is_digit (field r 4 2)
     && forallb is_digit (field r 7 2) && forallb is_digit (field r 10 2)
     && forallb is_digit (field r 13 2)
  then Some (digits_value y, digits_value (field r 1 2),
             digits_value (field r 4 2), digits_value (field r 7 2),
             digits_value (field r 10 2), digits_value (field r 13 2))
  else None.

(** The time stamp of a [datetime] clause: the text after
    [AT (TIMESTAMP => '], up to the next quote. *)
Definition clause_stamp (clause : str) : str :=
  fst (span (fun c => negb (Ascii.eqb c "'")) (skipn 18 clause)).

(** A call of a method [execute]: a dispatch. *)
Definition is_execute (e : event) : bool :=
  match e with
  | Called _ name _ => String.eqb name "execute"
  end.

(** The number of calls among [evs] that [sel] selects. *)
Definition count_calls (sel : event -> bool) (evs : list event) : nat :=
  length (List.filter sel evs).

(** [m] only adds calls to the trace; it adds at most [hi] calls that
    [sel] selects, and at least [lo] of them when it returns. *)
Definition makes {A : Type} (sel : event -> bool) (lo hi : nat) (m : M A)
  : Prop :=
  forall tr : list event,
  exists evs : list event,
    snd (m tr) = tr ++ evs
    /\ count_calls sel evs <= hi
    /\ (forall a : A, fst (m tr) = Ok a -> lo <= count_calls sel evs).

(** Every call counts. *)
Definition any_call (e : event) : bool := true.


(** What the first slot of the parameter [name] holds. *)
Fixpoint slot_state (slots : list (param * option value)) (name : string)
  : option (option value) :=
  match slots with
  | [] => None
  | (p, cur) :: rest =>
      if String.eqb (p_name p) name then Some cur else slot_state rest name
  end.

(** The name is among the keyword arguments. *)
Definition has_keyword (kw : list (string * value)) (name : string) : bool :=
  existsb (fun nv => String.eqb (fst nv) name) kw.

(** A slot that is empty and has no default. *)
Definition unfilled (slot : param * option value) : bool :=
  match snd slot, p_default (fst slot) with
  | None, None => true
  | _, _ => false
  end.

(** The column labels of a frame. *)
Definition labels (df : frame) : list str := map fst df.

(** The layout [visualize_comparison] sets. *)
Definition comparison_layout (x_column y_column title date_format : str)
  : layout :=
  mk_layout title (lit "overlay")
    x_column date_format 90 (lit "reversed")
    y_column (lit ",.0f") (lit "$") (lit "K")
    (lit "h") 5 (lit "center") 11
    (lit "x unified") (lit "plotly_white") 1500 600.

(** The two bars and the two lines, the historical series first. *)
Definition comparison_bars (hx hy cx cy : column)
  (current_label historical_label date_format : str) : list trace :=
  [ GoBar hx hy historical_label (lit "#FFD100") 20
          (hovertemplate_of date_format historical_label);
    GoBar cx cy current_label (lit "#00E0FF") 20
          (hovertemplate_of date_format current_label) ].

Definition comparison_lines (hx hy cx cy : column)
  (current_label historical_label date_format : str) : list trace :=
  [ GoScatter hx hy (lit "lines") (historical_label ++ lit " Trend")
              (lit "#FFD100") 4
              (hovertemplate_of date_format historical_label);
    GoScatter cx cy (lit "lines") (current_label ++ lit " Trend")
              (lit "#00E0FF") 4
              (hovertemplate_of date_format current_label) ].

(** Reading the four columns, in the order of the source. *)
Definition read_columns (current_df historical_df : frame)
  (x_column y_column : str)
  : vresult (column * column * column * column) :=
  let* hx := frame_get historical_df x_column in
  let* hy := frame_get historical_df y_column in
  let* cx := frame_get current_df x_column in
  let* cy := frame_get current_df y_column in
  VOk (hx, hy, cx, cy).

(** * Properties *)

(** ** The pattern *)

Lemma span_spec (p : ascii -> bool) (s a b : str) :
  span p s = (a, b) -> s = a ++ b /\ forallb p a = true /\ stops p b.
Proof.
  revert a b. induction s as [|c t IH]; simpl; intros a b H.
  - inversion H; subst. repeat split.
  - destruct (p c) eqn:Hc.
    + destruct (span p t) as [a' b'] eqn:Ht. inversion H; subst.
      destruct (IH a' b eq_refl) as (-> & Ha & Hb).
      simpl. rewrite Hc, Ha. repeat split. exact Hb.
    + inversion H; subst. simpl. repeat split. exact Hc.
Qed.

Lemma span_app_stop (p : ascii -> bool) (a b : str) :
  forallb p a = true -> stops p b -> span p (a ++ b) = (a, b).
Proof.
  induction a as [|c a IH]; simpl; intros Ha Hb.
  - destruct b as [|c t]; simpl in *; [reflexivity | now rewrite Hb].
  - apply andb_prop in Ha as [Hc Ha]. now rewrite Hc, IH.
Qed.

Lemma space_not_ident (c : ascii) : is_space c = true -> is_ident c = false.
Proof.
  destruct c as [[] [] [] [] [] [] [] []]; vm_compute; congruence.
Qed.

Lemma ident_not_space (c : ascii) : is_ident c = true -> is_space c = false.
Proof.
  intros H. destruct (is_space c) eqn:Hs; [|reflexivity].
  apply space_not_ident in Hs. congruence.
Qed.

(** The greedy matcher finds a match exactly where the regular
    expression has one, and the match is unique: the two classes share no
    character, so giving back part of a repetition cannot help. *)
Lemma match_here_sound (s : str) (m : fmatch) (rest : str) :
  match_here s = Some (m, rest) -> s = m_text m ++ rest /\ valid_match m.
Proof.
  unfold match_here.
  destruct s as [|f [|r [|o [|k t]]]]; try discriminate.
  destruct (lit_ignorecase "f" f && lit_ignorecase "r" r
            && lit_ignorecase "o" o && lit_ignorecase "m" k) eqn:Hkw;
    [|discriminate].
  destruct (span is_space t) as [ws t1] eqn:Hws.
  destruct ws as [|w0 ws]; [discriminate|].
  destruct (span is_ident t1) as [ident t2] eqn:Hid.
  destruct ident as [|i0 ident]; [discriminate|].
  destruct t2 as [|sp t3]; [discriminate|].
  destruct (is_space sp) eqn:Hsp; [|discriminate].
  intros H; inversion H; subst; clear H.
  apply span_spec in Hws as (-> & Hws & _).
  apply span_spec in Hid as (-> & Hid & _).
  split.
  - unfold m_text. norm_app.
  - unfold valid_match; simpl. repeat split; try assumption; discriminate.
Qed.

Lemma match_here_complete (m : fmatch) (rest : str) :
  valid_match m -> match_here (m_text m ++ rest) = Some (m, rest).
Proof.
  destruct m as [kw ws ident sp].
  intros (Hkw & Hws0 & Hws & Hid0 & Hid & Hsp); simpl in *.
  destruct kw as [|f [|r [|o [|k [|]]]]]; try discriminate.
  assert (Hstop1 : stops is_space (ident ++ [sp] ++ rest)).
  { destruct ident as [|i0 ident]; [congruence|]. simpl in *.
    apply andb_prop in Hid as [Hi _]. now apply ident_not_space. }
  assert (Hstop2 : stops is_ident ([sp] ++ rest))
    by (simpl; now apply space_not_ident).
  unfold m_text; cbn [m_kw m_ws m_ident m_sp]. rewrite <- !app_assoc.
  change (match_here (f :: r :: o :: k :: ws ++ ident ++ [sp] ++ rest)
          = Some (mk_fmatch [f; r; o; k] ws ident sp, rest)).
  unfold match_here. simpl in Hkw. rewrite Hkw.
  rewrite (span_app_stop is_space ws _ Hws Hstop1).
  rewrite (span_app_stop is_ident ident _ Hid Hstop2).
  destruct ws; [congruence|]. destruct ident; [congruence|].
  simpl. now rewrite Hsp.
Qed.

(** ** Substitution and the list of matches *)

Lemma sub_scan_cons (repl : fmatch -> str) (c : ascii) (t : str) :
  sub_scan repl 0 (c :: t) =
  match match_here (c :: t) with
  | Some (m, _) => repl m ++ sub_scan repl (length (m_text m) - 1) t
  | None => c :: sub_scan repl 0 t
  end.
Proof. reflexivity. Qed.

Lemma find_scan_cons (gap : str) (c : ascii) (t : str) :
  find_scan 0 gap (c :: t) =
  match match_here (c :: t) with
  | Some (m, _) =>
      let '(ms, tl) := find_scan (length (m_text m) - 1) [] t in
      ((gap, m) :: ms, tl)
  | None => find_scan 0 (gap ++ [c]) t
  end.
Proof. reflexivity. Qed.

Lemma sub_scan_skip (repl : fmatch -> str) (a b : str) :
  sub_scan repl (length a) (a ++ b) = sub_scan repl 0 b.
Proof. induction a as [|c a IH]; simpl; [reflexivity | exact IH]. Qed.

Lemma find_scan_skip (gap a b : str) :
  find_scan (length a) gap (a ++ b) = find_scan 0 gap b.
Proof. induction a as [|c a IH]; simpl; [reflexivity | exact IH]. Qed.

(** At a match the scan resumes right after the matched text. *)
Lemma match_here_tail (c : ascii) (t : str) (m : fmatch) (rest : str) :
  match_here (c :: t) = Some (m, rest) ->
  exists a, t = a ++ rest /\ length a = length (m_text m) - 1
            /\ c :: a = m_text m.
Proof.
  intros H. apply match_here_sound in H as [Hs _].
  destruct (m_text m) as [|c' a] eqn:Hm.
  - unfold m_text in Hm.
    destruct (m_kw m), (m_ws m), (m_ident m); simpl in Hm; discriminate.
  - simpl in Hs. inversion Hs; subst. exists a. simpl.
    repeat split. lia.
Qed.

Lemma sub_scan_match (repl : fmatch -> str) (s : str) (m : fmatch) (rest : str) :
  match_here s = Some (m, rest) ->
  sub_scan repl 0 s = repl m ++ sub_scan repl 0 rest.
Proof.
  destruct s as [|c t]; [discriminate|]. intros H.
  rewrite sub_scan_cons, H.
  destruct (match_here_tail _ _ _ _ H) as (a & -> & <- & _).
  now rewrite sub_scan_skip.
Qed.

(** [finditer] cuts the subject into gaps and matches, and [sub] rewrites
    the matches and nothing else. *)
Lemma scan_rebuild (repl : fmatch -> str) (n : nat) :
  forall (s gap : str) (ms : list (str * fmatch)) (tl : str),
    length s <= n ->
    find_scan 0 gap s = (ms, tl) ->
    gap ++ s = rebuild m_text ms tl
    /\ gap ++ sub_scan repl 0 s = rebuild repl ms tl
    /\ Forall (fun gm => valid_match (snd gm)) ms.
Proof.
  induction n as [|n IH]; intros s gap ms tl Hlen Hfind.
  - destruct s; [|simpl in Hlen; lia]. simpl in Hfind.
    inversion Hfind; subst. unfold rebuild; simpl.
    rewrite app_nil_r. repeat split. constructor.
  - destruct s as [|c t].
    { simpl in Hfind. inversion Hfind; subst. unfold rebuild; simpl.
      rewrite app_nil_r. repeat split. constructor. }
    rewrite find_scan_cons in Hfind. rewrite sub_scan_cons.
    destruct (match_here (c :: t)) as [[m rest]|] eqn:Hm.
    + destruct (match_here_tail _ _ _ _ Hm) as (a & -> & Hla & Hca).
      rewrite <- Hla in *. rewrite find_scan_skip in Hfind.
      rewrite sub_scan_skip.
      destruct (find_scan 0 [] rest) as [ms' tl'] eqn:Hrest.
      inversion Hfind; subst; clear Hfind.
      assert (Hr : length rest <= n).
      { simpl in Hlen. rewrite length_app in Hlen. lia. }
      destruct (IH rest [] ms' tl Hr Hrest) as (H1 & H2 & H3).
      simpl in H1, H2. unfold rebuild in *. simpl.
      rewrite H2, app_comm_cons, Hca, H1.
      repeat split; [now norm_app | now norm_app |].
      constructor; [|exact H3]. simpl.
      now apply match_here_sound in Hm as [_ Hv].
    + assert (Ht : length t <= n) by (simpl in Hlen; lia).
      destruct (IH t (gap ++ [c]) ms tl Ht Hfind) as (H1 & H2 & H3).
      rewrite <- H1, <- H2. repeat split; [now norm_app | now norm_app | exact H3].
Qed.

Lemma finditer_rebuild (repl : fmatch -> str) (s : str)
  (ms : list (str * fmatch)) (tl : str) :
  finditer s = (ms, tl) ->
  s = rebuild m_text ms tl
  /\ sub_scan repl 0 s = rebuild repl ms tl
  /\ Forall (fun gm => valid_match (snd gm)) ms.
Proof.
  intros H. exact (scan_rebuild repl (length s) s [] ms tl (le_n _) H).
Qed.

(** The first match the scan reports is the leftmost one: the pattern
    matches at no earlier position, and the scan goes on right after it. *)
Lemma find_scan_first (s gap g : str) (m : fmatch)
  (ms : list (str * fmatch)) (tl : str) :
  find_scan 0 gap s = ((g, m) :: ms, tl) ->
  exists g' rest : str,
    g = gap ++ g'
    /\ s = g' ++ m_text m ++ rest
    /\ (forall a b : str,
          g' = a ++ b -> b <> [] ->
          match_here (b ++ m_text m ++ rest) = None)
    /\ find_scan 0 [] rest = (ms, tl).
Proof.
  revert gap. induction s as [|c t IH]; intros gap H; [discriminate|].
  rewrite find_scan_cons in H.
  destruct (match_here (c :: t)) as [[m' rest]|] eqn:Hm.
  - destruct (match_here_tail _ _ _ _ Hm) as (a & -> & Hla & Hca).
    rewrite <- Hla, find_scan_skip in H.
    destruct (find_scan 0 [] rest) as [ms' tl'] eqn:Hrest.
    inversion H; subst; clear H.
    exists [], rest. rewrite app_nil_r. simpl.
    split; [reflexivity|]. split; [now rewrite app_comm_cons, Hca|].
    split; [|exact Hrest].
    intros a' b Hab Hb. symmetry in Hab.
    apply app_eq_nil in Hab as [_ ->]. congruence.
  - destruct (IH _ H) as (g' & rest & -> & -> & Hleft & Hrest).
    exists (c :: g'), rest. rewrite <- app_assoc. simpl.
    repeat split; [|exact Hrest].
    intros a b Hab Hb. destruct a as [|c' a]; simpl in Hab.
    + subst b. exact Hm.
    + inversion Hab; subst. now apply (Hleft a b).
Qed.

(** A query has no FROM clause exactly when the pattern matches at none
    of its positions, that is, when [pattern.search] finds nothing. *)
Lemma find_scan_nil_iff (s gap : str) :
  fst (find_scan 0 gap s) = []
  <-> forall a b : str, s = a ++ b -> match_here b = None.
Proof.
  revert gap. induction s as [|c t IH]; intros gap.
  - simpl. split; [|reflexivity].
    intros _ a b H. symmetry in H. apply app_eq_nil in H as [_ ->].
    reflexivity.
  - rewrite find_scan_cons.
    destruct (match_here (c :: t)) as [[m rest]|] eqn:Hm.
    + destruct (find_scan (length (m_text m) - 1) [] t) as [ms tl].
      split; [discriminate|].
      intros H. specialize (H [] (c :: t) eq_refl). congruence.
    + rewrite IH. split; intros H a b Hab.
      * destruct a as [|c' a]; simpl in Hab.
        -- now subst b.
        -- inversion Hab; subst. now apply (H a b).
      * apply (H (c :: a) b). simpl. now rewrite Hab.
Qed.

Lemma no_clause_iff (s : str) :
  from_clauses s = 0
  <-> forall a b : str, s = a ++ b -> match_here b = None.
Proof.
  unfold from_clauses, finditer. rewrite <- (find_scan_nil_iff s []).
  destruct (fst (find_scan 0 [] s)); simpl; split; congruence.
Qed.

(** ** Replacement templates without a backslash *)

Lemma tokenize_plain (s : str) :
  no_backslash s = true -> tokenize s = map TChar s.
Proof.
  induction s as [|c t IH]; simpl; intros H; [reflexivity|].
  apply andb_prop in H as [Hc Ht].
  destruct (Ascii.eqb c "\"); [discriminate|]. now rewrite IH.
Qed.

Lemma parse_tokens_plain (s : str) :
  parse_tokens None (map TChar s) = Ok (plain_items s).
Proof.
  induction s as [|c t IH]; simpl; [reflexivity|]. now rewrite IH.
Qed.

Lemma expand_plain (s : str) (m : fmatch) : expand (plain_items s) m = s.
Proof.
  unfold expand, plain_items.
  induction s as [|c t IH]; simpl; [reflexivity | now rewrite IH].
Qed.

Lemma compile_replacement (q : str) :
  no_backslash q = true ->
  compile_repl (replacement q) = Ok (replacement_items q).
Proof.
  intros Hq. unfold compile_repl, replacement.
  assert (Hrest : no_backslash (lit " " ++ q ++ lit " ") = true).
  { unfold no_backslash in *. rewrite !forallb_app, Hq. reflexivity. }
  change (lit "from \1 " ++ q ++ lit " ")
    with ("f" :: "r" :: "o" :: "m" :: " " :: "\" :: "1"
          :: (lit " " ++ q ++ lit " ")).
  cbn [tokenize Ascii.eqb Bool.eqb].
  rewrite (tokenize_plain _ Hrest).
  change (map TChar (lit " " ++ q ++ lit " "))
    with (TChar " " :: map TChar (q ++ lit " ")).
  cbn -[parse_tokens].
  change (TChar " " :: map TChar (q ++ lit " "))
    with (map TChar (lit " " ++ q ++ lit " ")).
  cbn [parse_tokens].
  rewrite parse_tokens_plain. reflexivity.
Qed.

Lemma parse_replacement (q : str) :
  no_backslash q = true ->
  parse_template (replacement q) = Some (replacement_items q).
Proof.
  intros Hq. unfold parse_template. now rewrite compile_replacement.
Qed.

Lemma parse_template_compiled (template : str) (items : list titem) :
  parse_template template = Some items -> compile_repl template = Ok items.
Proof.
  unfold parse_template. destruct (compile_repl template); congruence.
Qed.

Lemma group_ref_error (i : N) (e : exn) :
  group_ref i = Raise e -> e = TemplateError.
Proof. unfold group_ref. destruct (i <=? 1)%N; congruence. Qed.

Lemma emit_error (it : result titem) (rest : result (list titem)) (e : exn) :
  emit it rest = Raise e -> it = Raise e \/ rest = Raise e.
Proof. destruct it as [i|e1], rest as [r|e2]; simpl; intros H;
    first [discriminate | injection H as ->; auto]. Qed.

(** The compiler raises [re.error] or [IndexError], nothing else. *)
Lemma parse_tokens_error (n : nat) :
  forall (ts : list token) (name : option (list token)) (e : exn),
    length ts <= n ->
    parse_tokens name ts = Raise e -> e = TemplateError \/ e = IndexError.
Proof.
  induction n as [|n IH]; intros ts name e Hn.
  - destruct ts; [|simpl in Hn; lia].
    destruct name; simpl; intros [= <-]; now left.
  - assert (Hrec : forall name t, length t <= n ->
               parse_tokens name t = Raise e ->
               e = TemplateError \/ e = IndexError)
      by (intros; eapply IH; eassumption).
    assert (Hem : forall it t,
               (it = Raise e -> e = TemplateError \/ e = IndexError) ->
               length t <= n ->
               emit it (parse_tokens None t) = Raise e ->
               e = TemplateError \/ e = IndexError).
    { intros it t Hit Ht H. apply emit_error in H as [H|H]; [auto|].
      now apply (Hrec None t). }
    assert (Hok : forall i : titem, Ok i = Raise e ->
                                    e = TemplateError \/ e = IndexError)
      by discriminate.
    assert (Href : forall i, group_ref i = Raise e ->
                             e = TemplateError \/ e = IndexError)
      by (intros i H; left; eapply group_ref_error; eassumption).
    destruct name as [acc|]; destruct ts as [|tk t];
      cbn [parse_tokens length] in *;
      try (intros [= <-]; now left); try discriminate.
    + destruct tk as [c|c|]; try (intros [= <-]; now left);
        try (apply Hrec; lia).
      destruct c as [[] [] [] [] [] [] [] []]; try (apply Hrec; lia).
      destruct (dangling t); [intros [= <-]; now left|].
      unfold group_name_index.
      destruct (isidentifier (name_text acc)); [intros [= <-]; now right|].
      destruct (py_int (name_text acc)) as [z|]; [|intros [= <-]; now left].
      destruct (z <? 0)%Z; [intros [= <-]; now left|].
      apply Hem; [apply Href | lia].
    + destruct tk as [c|c|]; [| |intros [= <-]; now left].
      * apply Hem; [apply Hok | lia].
      * repeat
          (first
             [ progress (intros [= <-]; now left)
             | apply Hem; [first [apply Hok | apply Href] | cbn [length] in *; lia]
             | apply Hrec; cbn [length] in *; lia
             | match goal with
               | |- context [if ?b then _ else _] => destruct b
               | |- context [match ?x with _ => _ end] => destruct x
               end; cbn [length] in * ]).
Qed.

Lemma compile_repl_error (template : str) (e : exn) :
  compile_repl template = Raise e -> e = TemplateError \/ e = IndexError.
Proof. apply (parse_tokens_error (length (tokenize template))). lia. Qed.

Lemma expand_app (a b : list titem) (m : fmatch) :
  expand (a ++ b) m = expand a m ++ expand b m.
Proof. unfold expand. apply flat_map_app. Qed.

Lemma expand_replacement (q : str) (m : fmatch) :
  expand (replacement_items q) m
  = lit "from " ++ m_ident m ++ lit " " ++ q ++ lit " ".
Proof.
  unfold replacement_items. rewrite expand_app, expand_plain.
  change (expand (IGroup 1 :: plain_items (lit " " ++ q ++ lit " ")) m)
    with (m_ident m ++ expand (plain_items (lit " " ++ q ++ lit " ")) m).
  now rewrite expand_plain.
Qed.

(** ** The clause injector *)

Lemma modify_compiled (s q : str) (items : list titem) :
  parse_template (replacement q) = Some items ->
  modify_from_clause_for_timetravel (VStr s) q
  = Ok (VStr (sub_scan (expand items) 0 s)).
Proof.
  intros H. unfold modify_from_clause_for_timetravel, sub_from.
  now rewrite (parse_template_compiled _ _ H).
Qed.

Lemma sub_scan_ext (f g : fmatch -> str) (k : nat) (s : str) :
  (forall m, f m = g m) -> sub_scan f k s = sub_scan g k s.
Proof.
  intros Hfg. revert k. induction s as [|c t IH]; intros k; [reflexivity|].
  destruct k as [|k]; [|simpl; apply IH].
  rewrite !sub_scan_cons.
  destruct (match_here (c :: t)) as [[m rest]|]; [|now rewrite IH].
  now rewrite Hfg, IH.
Qed.

(** With a clause that has no backslash, every match becomes
    [from <identifier> <clause> ] and the rest of the query is kept. *)
Lemma modify_rebuild (s q : str) (ms : list (str * fmatch)) (tl : str) :
  no_backslash q = true ->
  finditer s = (ms, tl) ->
  s = rebuild m_text ms tl
  /\ Forall (fun gm => valid_match (snd gm)) ms
  /\ modify_from_clause_for_timetravel (VStr s) q
     = Ok (VStr (rebuild (qualified q) ms tl)).
Proof.
  intros Hq Hf.
  destruct (finditer_rebuild (qualified q) s ms tl Hf) as (H1 & H2 & H3).
  repeat split; [exact H1 | exact H3 |].
  rewrite (modify_compiled s q _ (parse_replacement q Hq)).
  rewrite <- H2. do 2 f_equal.
  apply sub_scan_ext. intros m. apply expand_replacement.
Qed.

(** A query without a match comes back as it is, whenever the
    replacement compiles. *)
Lemma modify_no_clause (s q : str) (items : list titem) :
  parse_template (replacement q) = Some items ->
  from_clauses s = 0 ->
  modify_from_clause_for_timetravel (VStr s) q = Ok (VStr s).
Proof.
  intros Hp H0. rewrite (modify_compiled s q items Hp).
  unfold from_clauses in H0.
  destruct (finditer s) as [ms tl] eqn:Hf. simpl in H0.
  destruct ms; [|discriminate].
  destruct (finditer_rebuild (expand items) s [] tl Hf) as (H1 & H2 & _).
  unfold rebuild in *; simpl in *. congruence.
Qed.

Lemma is_insertion_check (s r : str) :
  is_insertion s r -> is_insertionb s r = true.
Proof.
  intros (a & x & b & -> & ->). unfold is_insertionb.
  apply existsb_exists. exists (length a). split.
  - apply in_seq. rewrite length_app. lia.
  - apply andb_true_intro. split; apply bool_decide_eq_true.
    + now rewrite !take_app_length.
    + rewrite drop_app_length, !length_app.
      replace (length a + (length a + (length x + length b)
                           - (length a + length b)))
        with (length (a ++ x)) by (rewrite length_app; lia).
      now rewrite app_assoc, drop_app_length.
Qed.

(** C7.  The injector turns [select * from T where x=1], with the clause
    [AT (TIMESTAMP => '2023-07-22 12:00:00')], into
    [select * from T AT (TIMESTAMP => '2023-07-22 12:00:00') where x=1]. *)
Theorem modify_scenario :
  modify_from_clause_for_timetravel
    (VStr (lit "select * from T where x=1"))
    (lit "AT (TIMESTAMP => '2023-07-22 12:00:00')")
  = Ok (VStr (lit
      "select * from T AT (TIMESTAMP => '2023-07-22 12:00:00') where x=1")).
Proof. vm_compute. reflexivity. Qed.

(** C1, as stated, fails: the keyword of the query is not kept as
    written.  With one FROM clause spelled in capitals, the result is not
    the query with text inserted into it. *)
Lemma one_clause_keyword_rewritten :
  from_clauses (lit "SELECT * FROM T WHERE x=1") = 1
  /\ modify_from_clause_for_timetravel
       (VStr (lit "SELECT * FROM T WHERE x=1"))
       (lit "AT (TIMESTAMP => '2023-07-22 12:00:00')")
     = Ok (VStr (lit
         "SELECT * from T AT (TIMESTAMP => '2023-07-22 12:00:00') WHERE x=1"))
  /\ ~ is_insertion
         (lit "SELECT * FROM T WHERE x=1")
         (lit
         "SELECT * from T AT (TIMESTAMP => '2023-07-22 12:00:00') WHERE x=1").
Proof.
  split; [reflexivity|]. split; [vm_compute; reflexivity|].
  intros H. apply is_insertion_check in H. vm_compute in H. discriminate.
Qed.

(** C1, amended.  For a query with exactly one FROM clause and a clause
    text without a backslash, the result is the text before the match,
    then [from], one space, the identifier as written, one space, the
    clause, one space, then the text after the match.  The identifier and
    the text around the match are kept; the keyword and the white space
    of the match are not kept as written. *)
Theorem modify_one_clause (s q : str) :
  no_backslash q = true ->
  from_clauses s = 1 ->
  exists (pre : str) (m : fmatch) (post : str),
    finditer s = ([(pre, m)], post)
    /\ s = pre ++ m_text m ++ post
    /\ valid_match m
    /\ modify_from_clause_for_timetravel (VStr s) q
       = Ok (VStr (pre ++ lit "from " ++ m_ident m ++ lit " " ++ q
                   ++ lit " " ++ post)).
Proof.
  intros Hq H1. unfold from_clauses in H1.
  destruct (finditer s) as [ms post] eqn:Hf. simpl in H1.
  destruct ms as [|[pre m] [|]]; try discriminate.
  destruct (modify_rebuild s q _ _ Hq Hf) as (Hs & Hv & Hr).
  exists pre, m, post. unfold rebuild, qualified in *. simpl in Hs.
  rewrite app_nil_r, <- app_assoc in Hs.
  split; [reflexivity|]. split; [exact Hs|]. split; [now inversion Hv|].
  rewrite Hr. do 2 f_equal. now norm_app.
Qed.

Lemma modify_one_clause_witness :
  no_backslash (lit "AT (TIMESTAMP => '2023-07-22 12:00:00')") = true
  /\ from_clauses (lit "SELECT * FROM T WHERE x=1") = 1
  /\ exists (pre : str) (m : fmatch) (post : str),
       finditer (lit "SELECT * FROM T WHERE x=1") = ([(pre, m)], post)
       /\ lit "SELECT * FROM T WHERE x=1" = pre ++ m_text m ++ post
       /\ valid_match m
       /\ modify_from_clause_for_timetravel
            (VStr (lit "SELECT * FROM T WHERE x=1"))
            (lit "AT (TIMESTAMP => '2023-07-22 12:00:00')")
          = Ok (VStr (pre ++ lit "from " ++ m_ident m ++ lit " "
                      ++ lit "AT (TIMESTAMP => '2023-07-22 12:00:00')"
                      ++ lit " " ++ post)).
Proof.
  split; [reflexivity|]. split; [reflexivity|].
  apply (modify_one_clause (lit "SELECT * FROM T WHERE x=1")
           (lit "AT (TIMESTAMP => '2023-07-22 12:00:00')"));
    reflexivity.
Defined.

(** When the one FROM clause is already spelled [from], with single
    spaces around the identifier, the result is the query with a space and
    the clause inserted after the identifier. *)
Lemma modify_one_clause_canonical (s q : str) (pre : str) (m : fmatch)
  (post : str) :
  no_backslash q = true ->
  finditer s = ([(pre, m)], post) ->
  m_kw m = lit "from" -> m_ws m = lit " " -> m_sp m = " " ->
  modify_from_clause_for_timetravel (VStr s) q
  = Ok (VStr (pre ++ m_kw m ++ m_ws m ++ m_ident m ++ lit " " ++ q
              ++ [m_sp m] ++ post)).
Proof.
  intros Hq Hf Hkw Hws Hsp.
  destruct (modify_rebuild s q _ _ Hq Hf) as (_ & _ & Hr).
  rewrite Hr, Hkw, Hws. unfold rebuild, qualified.
  do 2 f_equal. rewrite Hsp. now norm_app.
Qed.

(** C5: the code departs from the specification when the clause text
    carries a template escape.  The query below has no FROM clause, yet
    the call does not hand it back: it raises while the replacement,
    built from a clause with an invalid group reference, is compiled.
    (Without such an escape the query does come back unchanged:
    [modify_no_clause].) *)
Theorem no_clause_bad_reference :
  from_clauses (lit "select 1") = 0
  /\ modify_from_clause_for_timetravel
       (VStr (lit "select 1")) (lit "AT (TIMESTAMP => '2023-07-22\2')")
     = Raise TemplateError.
Proof. split; reflexivity. Qed.

(** C6: the code departs from the specification when the clause text
    carries a template escape.  The query below has two FROM clauses;
    [\1] in the clause is replaced by the identifier of each match, so the
    two are qualified differently, and neither with the clause text.
    (Without a backslash every match gets the same text:
    [modify_rebuild].) *)
Theorem two_clauses_group_reference :
  from_clauses (lit "select * from a where x in (select x from b )") = 2
  /\ modify_from_clause_for_timetravel
       (VStr (lit "select * from a where x in (select x from b )"))
       (lit "AT (TIMESTAMP => '\1')")
     = Ok (VStr (lit
         "select * from a AT (TIMESTAMP => 'a') where x in (select x from b AT (TIMESTAMP => 'b') )")).
Proof. split; vm_compute; reflexivity. Qed.

(** ** The timestamp qualifier *)

Lemma string_of_uint_digits (d : Decimal.uint) :
  forallb is_digit (lit (NilEmpty.string_of_uint d)) = true.
Proof. induction d; simpl; try reflexivity; exact IHd. Qed.

(** [str(n)] is an optional minus sign and decimal digits. *)
Lemma dec_chars (n : Z) : forallb is_signed_digit (dec n) = true.
Proof.
  assert (Hd : forall c, is_digit c = true -> is_signed_digit c = true)
    by (intros c Hc; unfold is_signed_digit; now rewrite Hc).
  assert (Hu : forall d,
             forallb is_signed_digit (lit (NilZero.string_of_uint d)) = true).
  { intros d. apply forallb_forall. intros c Hc. apply Hd.
    destruct d; try (simpl in Hc; destruct Hc as [<-|[]]; reflexivity);
      (eapply forallb_forall; [apply string_of_uint_digits | exact Hc]). }
  unfold dec, NilZero.string_of_int.
  destruct (Z.to_int n) as [d|d]; [apply Hu|].
  change (lit (String "-" (NilZero.string_of_uint d)))
    with ("-" :: lit (NilZero.string_of_uint d)).
  simpl. apply Hu.
Qed.

Lemma signed_digit_no_backslash (s : str) :
  forallb is_signed_digit s = true -> no_backslash s = true.
Proof.
  unfold no_backslash. induction s as [|c t IH]; simpl; [reflexivity|].
  intros H. apply andb_prop in H as [Hc Ht]. rewrite (IH Ht), andb_true_r.
  destruct c as [[] [] [] [] [] [] [] []]; vm_compute in Hc |- *; congruence.
Qed.

Lemma offset_clause_no_backslash (w : world) (n : Z) :
  no_backslash (offset_clause w (VInt n)) = true.
Proof.
  unfold offset_clause, no_backslash. rewrite !forallb_app.
  fold (no_backslash (py_format w (VInt n))). simpl py_format.
  now rewrite (signed_digit_no_backslash _ (dec_chars n)).
Qed.

(** [str(n)] is the decimal numeral of [n]. *)
Lemma read_int_dec (n : Z) : read_int (dec n) = Some n.
Proof.
  unfold read_int, dec, lit. rewrite string_of_list_ascii_of_string.
  rewrite NilZero.isi.
  - simpl. now rewrite DecimalZ.of_to.
  - destruct n; simpl; try discriminate.
    intros [= H]. now apply Unsigned.to_uint_nonnil in H.
  - destruct n; simpl; try discriminate.
    intros [= H]. now apply Unsigned.to_uint_nonnil in H.
Qed.

(** C9.  For an integer offset [n] the qualifier is the text
    [AT (TIMESTAMP => DATEADD(DAY, -n, CURRENT_TIMESTAMP()))], with [n] in
    decimal: the date arithmetic is left to the engine, and the text
    depends on [n] alone, in [query_at_time] and in [query_at_offset]
    alike.  For 7 it contains [DATEADD(DAY, -7,]. *)
Theorem integer_clause_deferred (w : world) (n : Z) :
  time_travel_clause_of w (VInt n)
  = lit "AT (TIMESTAMP => DATEADD(DAY, -" ++ dec n
    ++ lit ", CURRENT_TIMESTAMP()))"
  /\ read_int (dec n) = Some n
  /\ offset_clause w (VInt n) = time_travel_clause_of w (VInt n)
  /\ (forall w' : world,
        time_travel_clause_of w' (VInt n) = time_travel_clause_of w (VInt n))
  /\ exists a b : str,
       time_travel_clause_of w (VInt 7) = a ++ lit "DATEADD(DAY, -7," ++ b.
Proof.
  split; [reflexivity|]. split; [apply read_int_dec|].
  repeat split.
  exists (lit "AT (TIMESTAMP => "), (lit " CURRENT_TIMESTAMP()))").
  reflexivity.
Qed.

Lemma digits_ofb_spec (width : nat) (n : Z) (s : str) :
  digits_ofb width n s = true -> digits_of width n s.
Proof.
  unfold digits_ofb, digits_of. intros H.
  apply andb_prop in H as [H Hv]. apply andb_prop in H as [Hl Hd].
  apply Nat.eqb_eq in Hl. apply Z.eqb_eq in Hv. auto.
Qed.

Lemma zpad_digits_below (width : nat) (bound : Z) :
  forallb (fun k => digits_ofb width (Z.of_nat k) (zpad width (Z.of_nat k)))
          (seq 0 (Z.to_nat bound)) = true ->
  forall n : Z, (0 <= n < bound)%Z -> digits_of width n (zpad width n).
Proof.
  intros H n Hn. apply digits_ofb_spec.
  rewrite forallb_forall in H.
  specialize (H (Z.to_nat n)). rewrite Z2Nat.id in H by lia.
  apply H. apply in_seq. lia.
Qed.

Lemma zpad2_digits (n : Z) : (0 <= n <= 99)%Z -> digits_of 2 n (zpad 2 n).
Proof.
  intros H. apply (zpad_digits_below 2 100); [vm_compute; reflexivity | lia].
Qed.

Lemma zpad4_digits (n : Z) : (0 <= n <= 9999)%Z -> digits_of 4 n (zpad 4 n).
Proof.
  intros H. apply (zpad_digits_below 4 10000); [vm_compute; reflexivity | lia].
Qed.

(** A check made for every number below a bound holds for each of them. *)
Lemma checked_below (P : Z -> bool) (bound : Z) :
  forallb (fun k => P (Z.of_nat k)) (seq 0 (Z.to_nat bound)) = true ->
  forall n : Z, (0 <= n < bound)%Z -> P n = true.
Proof.
  intros H n Hn. rewrite forallb_forall in H.
  specialize (H (Z.to_nat n)). rewrite Z2Nat.id in H by lia.
  apply H. apply in_seq. lia.
Qed.

(** [str(n)] of a number below 10000: digits that denote [n], four of
    them only from 1000 on. *)
Lemma dec_digits (n : Z) :
  (0 <= n <= 9999)%Z ->
  forallb is_digit (dec n) = true /\ digits_value (dec n) = n
  /\ dec n <> []
  /\ ((1000 <= n)%Z -> length (dec n) = 4).
Proof.
  intros Hn.
  pose (P := fun k : Z =>
               forallb is_digit (dec k) && (digits_value (dec k) =? k)%Z
               && negb (Nat.eqb (length (dec k)) 0)
               && ((k <? 1000)%Z || Nat.eqb (length (dec k)) 4)).
  assert (H : P n = true)
    by (apply (checked_below P 10000); [vm_compute; reflexivity | lia]).
  unfold P in H.
  apply andb_prop in H as [H H4]. apply andb_prop in H as [H H0].
  apply andb_prop in H as [Hd Hv].
  split; [exact Hd|]. split; [now apply Z.eqb_eq|]. split.
  - intros E. rewrite E in H0. discriminate.
  - intros H1000. apply orb_prop in H4 as [H4|H4].
    + apply Z.ltb_lt in H4. lia.
    + now apply Nat.eqb_eq.
Qed.

(** What [%Y] writes for a year of a [datetime]. *)
Lemma year_text_digits (w : world) (y : Z) :
  (1 <= y <= 9999)%Z ->
  forallb is_digit (year_text w y) = true
  /\ digits_value (year_text w y) = y
  /\ year_text w y <> []
  /\ (pads_year w = true \/ (1000 <= y)%Z -> length (year_text w y) = 4)
  /\ (pads_year w = false -> year_text w y = dec y).
Proof.
  intros Hy. unfold year_text.
  destruct (zpad4_digits y) as (L & D & V); [lia|].
  destruct (dec_digits y) as (D' & V' & N' & L'); [lia|].
  destruct (pads_year w).
  - split; [exact D|]. split; [exact V|]. split.
    + intros E. rewrite E in L. discriminate.
    + split; [intros _; exact L | discriminate].
  - split; [exact D'|]. split; [exact V'|]. split; [exact N'|].
    split; [|reflexivity].
    intros [?|H]; [discriminate | now apply L'].
Qed.

(** C8, as stated, fails: on glibc the year 999 is written with three
    digits, so the text between the quotes is not of the form
    YYYY-MM-DD HH:MM:SS. *)
Lemma year_below_1000_unpadded :
  valid_datetime (mk_datetime 999 1 2 3 4 5 0 None)
  /\ time_travel_clause_of quiet_world
       (VDatetime (mk_datetime 999 1 2 3 4 5 0 None))
     = lit "AT (TIMESTAMP => '999-01-02 03:04:05')"
  /\ ~ exists Y Mo D H Mi S : str,
         digits_of 4 999 Y /\ digits_of 2 1 Mo /\ digits_of 2 2 D
         /\ digits_of 2 3 H /\ digits_of 2 4 Mi /\ digits_of 2 5 S
         /\ time_travel_clause_of quiet_world
              (VDatetime (mk_datetime 999 1 2 3 4 5 0 None))
            = lit "AT (TIMESTAMP => '" ++ Y ++ lit "-" ++ Mo ++ lit "-" ++ D
              ++ lit " " ++ H ++ lit ":" ++ Mi ++ lit ":" ++ S ++ lit "')".
Proof.
  split; [unfold valid_datetime; simpl; lia|].
  split; [vm_compute; reflexivity|].
  intros (Y & Mo & D & H & Mi & S & (LY & _) & (LMo & _) & (LD & _)
          & (LH & _) & (LMi & _) & (LS & _) & E).
  apply (f_equal (@length ascii)) in E.
  rewrite !length_app, LY, LMo, LD, LH, LMi, LS in E.
  vm_compute in E. discriminate.
Qed.

(** C8, amended.  For a [datetime] the qualifier is
    [AT (TIMESTAMP => '...')] around the value written as
    Y-MM-DD HH:MM:SS, with no fraction and no offset: two digits each of
    the month, day, hour, minute and second, and the year in decimal, with
    four digits when it is 1000 or more or the C library pads it, and as
    many digits as it has on glibc.  The text depends on the six fields
    and the C library alone, so equal date values give equal qualifiers;
    from the year 1000 on it is the same text everywhere. *)
Theorem datetime_clause_format (w : world) (d : datetime) :
  valid_datetime d ->
  (exists Y Mo D H Mi S : str,
     forallb is_digit Y = true /\ digits_value Y = year d
     /\ (pads_year w = true \/ (1000 <= year d)%Z -> length Y = 4)
     /\ (pads_year w = false -> Y = dec (year d))
     /\ digits_of 2 (month d) Mo
     /\ digits_of 2 (day d) D /\ digits_of 2 (hour d) H
     /\ digits_of 2 (minute d) Mi /\ digits_of 2 (second d) S
     /\ time_travel_clause_of w (VDatetime d)
        = lit "AT (TIMESTAMP => '" ++ Y ++ lit "-" ++ Mo ++ lit "-" ++ D
          ++ lit " " ++ H ++ lit ":" ++ Mi ++ lit ":" ++ S ++ lit "')")
  /\ (forall d' : datetime,
        year d' = year d -> month d' = month d -> day d' = day d ->
        hour d' = hour d -> minute d' = minute d -> second d' = second d ->
        time_travel_clause_of w (VDatetime d')
        = time_travel_clause_of w (VDatetime d))
  /\ ((1000 <= year d)%Z ->
      forall w' : world,
        time_travel_clause_of w' (VDatetime d)
        = time_travel_clause_of w (VDatetime d)).
Proof.
  intros (Hy & Hmo & Hd & Hh & Hmi & Hs).
  destruct (year_text_digits w (year d) Hy) as (YD & YV & _ & YL & YE).
  split; [|split].
  - exists (year_text w (year d)), (zpad 2 (month d)), (zpad 2 (day d)),
      (zpad 2 (hour d)), (zpad 2 (minute d)), (zpad 2 (second d)).
    do 4 (split; [assumption|]).
    repeat (split; [apply zpad2_digits; lia|]).
    unfold time_travel_clause_of, strftime. now rewrite <- !app_assoc.
  - intros d' E1 E2 E3 E4 E5 E6.
    unfold time_travel_clause_of, strftime.
    now rewrite E1, E2, E3, E4, E5, E6.
  - intros H1000 w'.
    destruct (dec_digits (year d)) as (_ & _ & _ & L); [lia|].
    assert (Hpad : zpad 4 (year d) = dec (year d)).
    { unfold zpad. rewrite (L H1000). reflexivity. }
    unfold time_travel_clause_of, strftime, year_text.
    rewrite Hpad. now destruct (pads_year w), (pads_year w').
Qed.

Lemma datetime_clause_format_witness :
  valid_datetime (mk_datetime 2023 7 22 12 0 0 0 None)
  /\ time_travel_clause_of quiet_world
       (VDatetime (mk_datetime 2023 7 22 12 0 0 250000 (Some 120%Z)))
     = time_travel_clause_of quiet_world
         (VDatetime (mk_datetime 2023 7 22 12 0 0 0 None)).
Proof.
  assert (Hv : valid_datetime (mk_datetime 2023 7 22 12 0 0 0 None))
    by (unfold valid_datetime; simpl; lia).
  split; [exact Hv|].
  apply (proj1 (proj2 (datetime_clause_format quiet_world _ Hv)));
    reflexivity.
Defined.

Lemma repeat_zero_no_backslash (k : nat) : no_backslash (repeat "0" k) = true.
Proof. induction k as [|k IH]; [reflexivity | exact IH]. Qed.

Lemma no_backslash_app (a b : str) :
  no_backslash (a ++ b) = no_backslash a && no_backslash b.
Proof. apply forallb_app. Qed.

Lemma zpad_no_backslash (width : nat) (n : Z) :
  no_backslash (zpad width n) = true.
Proof.
  unfold zpad.
  now rewrite no_backslash_app, repeat_zero_no_backslash,
    (signed_digit_no_backslash _ (dec_chars n)).
Qed.

(** The clauses built from an [int], a [bool] or a [datetime] carry no
    backslash. *)
Lemma built_clause_no_backslash (w : world) (ts : value) :
  match ts with
  | VInt _ | VBool _ | VDatetime _ =>
      no_backslash (time_travel_clause_of w ts) = true
  | _ => True
  end.
Proof.
  destruct ts as [| [] | n | | d | |]; try exact I; try reflexivity.
  - exact (offset_clause_no_backslash w n).
  - unfold time_travel_clause_of, strftime, year_text.
    rewrite !no_backslash_app, !zpad_no_backslash.
    destruct (pads_year w); [now rewrite zpad_no_backslash|].
    now rewrite (signed_digit_no_backslash _ (dec_chars (year d))).
Qed.

(** ** The wrappers *)

(** Were the two names bound, [execute_query] would dispatch its query and
    hand back the answer of the executor, a table or an error alike. *)
Example execute_query_patched_dispatches :
  execute_query (hex_world (Ok (VObj 7))) patched_globals
                (VStr (lit "select 1")) (VStr (lit "Analytics")) (VBool true) []
  = (Ok (VObj 7), [Called (VObj 50) "execute" [VStr (lit "select 1"); VNone]]).
Proof. vm_compute. reflexivity. Qed.

Example execute_query_patched_propagates :
  execute_query
    (hex_world (Raise (External "ExecutionError" (lit "no such table"))))
    patched_globals
    (VStr (lit "select 1")) (VStr (lit "Analytics")) (VBool true) []
  = (Raise (External "ExecutionError" (lit "no such table")),
     [Called (VObj 50) "execute" [VStr (lit "select 1"); VNone]]).
Proof. vm_compute. reflexivity. Qed.

(** *** Binding the arguments of a call *)

Lemma fill_keyword_error (slots : list (param * option value))
  (name : string) (v : value) (e : exn) :
  fill_keyword slots name v = Raise e -> e = TypeError.
Proof.
  induction slots as [|[p cur] rest IH]; simpl; [congruence|].
  destruct (String.eqb (p_name p) name).
  - destruct cur; congruence.
  - destruct (fill_keyword rest name v); [discriminate|].
    intros [= <-]. now apply IH.
Qed.

Lemma fill_defaults_error (slots : list (param * option value)) (e : exn) :
  fill_defaults slots = Raise e -> e = TypeError.
Proof.
  induction slots as [|[p cur] rest IH]; simpl; [discriminate|].
  destruct (match cur with Some v => Some v | None => p_default p end);
    [|congruence].
  destruct (fill_defaults rest); [discriminate|].
  intros [= <-]. now apply IH.
Qed.

Lemma fill_positional_error (sig : list param) (pos : list value) (e : exn) :
  fill_positional sig pos = Raise e -> e = TypeError.
Proof.
  revert pos. induction sig as [|p sig IH]; intros [|v pos]; simpl;
    try congruence.
  destruct (fill_positional sig pos) eqn:H; [discriminate|].
  intros [= <-]. now apply (IH pos).
Qed.

Lemma mapM_getitem0_trace (w : world) (l : list value) (tr : list event) :
  exists r, mapM (getitem0 w) l tr = (r, tr).
Proof.
  induction l as [|v l [r IH]]; [now eexists|].
  simpl. unfold bind.
  assert (Hg : exists r0, getitem0 w v tr = (r0, tr)).
  { unfold getitem0. destruct v; try destruct s; eauto. }
  destruct Hg as [r0 ->]. destruct r0 as [b|e]; [|now eexists].
  rewrite IH. destruct r; now eexists.
Qed.

Lemma fill_keywords_error (kw : list (string * value))
  (slots : list (param * option value)) (e : exn) :
  fill_keywords slots kw = Raise e -> e = TypeError.
Proof.
  revert slots. induction kw as [|[name v] kw IH]; intros slots; simpl;
    [discriminate|].
  destruct (fill_keyword slots name v) as [slots'|e'] eqn:Hf.
  - apply IH.
  - intros [= <-]. now apply (fill_keyword_error _ _ _ _ Hf).
Qed.

(** A call whose arguments do not fit the signature raises [TypeError]. *)
Lemma bind_arguments_error (sig : list param) (pos : list value)
  (kw : list (string * value)) (e : exn) :
  bind_arguments sig pos kw = Raise e -> e = TypeError.
Proof.
  unfold bind_arguments.
  destruct (fill_positional sig pos) as [slots|e1] eqn:Hp.
  - destruct (fill_keywords slots kw) as [slots'|e2] eqn:Hk.
    + apply fill_defaults_error.
    + intros [= <-]. now apply (fill_keywords_error _ _ _ Hk).
  - intros [= <-]. now apply (fill_positional_error _ _ _ Hp).
Qed.

(** A call either fails to bind its arguments, or runs the body on the
    values bound. *)
Lemma call3_outcome {A : Type} (sig : list param)
  (body : value -> value -> value -> M A)
  (pos : list value) (kw : list (string * value)) (tr : list event) :
  call3 sig body pos kw tr = (Raise TypeError, tr)
  \/ exists a1 a2 a3 : value, call3 sig body pos kw tr = body a1 a2 a3 tr.
Proof.
  unfold call3.
  destruct (bind_arguments sig pos kw) as [args|e] eqn:Hb.
  - destruct args as [|a1 [|a2 [|a3 [|a4 args]]]]; eauto.
  - left. now rewrite (bind_arguments_error _ _ _ _ Hb).
Qed.

Lemma call6_outcome {A : Type} (sig : list param)
  (body : value -> value -> value -> value -> value -> value -> M A)
  (pos : list value) (kw : list (string * value)) (tr : list event) :
  call6 sig body pos kw tr = (Raise TypeError, tr)
  \/ exists a1 a2 a3 a4 a5 a6 : value,
       call6 sig body pos kw tr = body a1 a2 a3 a4 a5 a6 tr.
Proof.
  unfold call6.
  destruct (bind_arguments sig pos kw) as [args|e] eqn:Hb.
  - destruct args as [|a1 [|a2 [|a3 [|a4 [|a5 [|a6 [|a7 args]]]]]]];
      try (now left).
    right. now exists a1, a2, a3, a4, a5, a6.
  - left. now rewrite (bind_arguments_error _ _ _ _ Hb).
Qed.

(** *** The free names *)

(** The injector raises what the template compiler raises, or [TypeError]
    for a query that is not a [str]. *)
Lemma modify_error (query : value) (clause : str) (e : exn) :
  modify_from_clause_for_timetravel query clause = Raise e ->
  e = TypeError \/ e = TemplateError \/ e = IndexError.
Proof.
  unfold modify_from_clause_for_timetravel, sub_from.
  destruct (compile_repl (replacement clause)) as [items|e'] eqn:Hc.
  - destruct query; try discriminate; intros [= <-]; now left.
  - intros [= <-]. right. now apply (compile_repl_error _ _ Hc).
Qed.

Lemma modify_plain (q clause : str) :
  no_backslash clause = true ->
  exists r : str,
    modify_from_clause_for_timetravel (VStr q) clause = Ok (VStr r).
Proof.
  intros H. eexists.
  apply (modify_compiled q clause _ (parse_replacement clause H)).
Qed.

Lemma connection_unbound : module_globals !! "connection"%string = None.
Proof. reflexivity. Qed.

Lemma params_unbound : module_globals !! "params"%string = None.
Proof. reflexivity. Qed.

Section Unbound.

Variable w : world.
Variable G : gmap string value.
Hypothesis connection_free : G !! "connection"%string = None.

Lemma execute_query_unbound (query dcn cd : value) (tr : list event) :
  execute_query w G query dcn cd tr = (Raise (NameError "connection"), tr).
Proof.
  unfold execute_query, bind, load_name. now rewrite connection_free.
Qed.

Lemma compare_timetravel_unbound
  (query days_ago db dcn params cd : value) (tr : list event) :
  compare_timetravel w G query days_ago db dcn params cd tr
  = (Raise (NameError "connection"), tr).
Proof.
  unfold compare_timetravel, bind, load_name. now rewrite connection_free.
Qed.

(** After the clause is injected the wrapper reads [connection]. *)
Lemma injected_then_unbound (query : value) (clause : str) (params : value)
  (tr : list event) :
  bind (lift (modify_from_clause_for_timetravel query clause))
       (fun time_travel_query =>
          bind (load_name G "connection")
               (fun c => execute_query w G c time_travel_query params)) tr
  = (Raise (match modify_from_clause_for_timetravel query clause with
            | Ok _ => NameError "connection"
            | Raise e => e
            end), tr).
Proof.
  unfold bind, lift, load_name.
  destruct (modify_from_clause_for_timetravel query clause);
    [|reflexivity].
  now rewrite connection_free.
Qed.

Lemma query_at_time_unbound (query ts db dcn params cd : value)
  (tr : list event) :
  query_at_time w G query ts db dcn params cd tr
  = (Raise (match modify_from_clause_for_timetravel
                    query (time_travel_clause_of w ts) with
            | Ok _ => NameError "connection"
            | Raise e => e
            end), tr).
Proof. apply injected_then_unbound. Qed.

Lemma query_at_offset_unbound (query days_ago db dcn params cd : value)
  (tr : list event) :
  query_at_offset w G query days_ago db dcn params cd tr
  = (Raise (match modify_from_clause_for_timetravel
                    query (offset_clause w days_ago) with
            | Ok _ => NameError "connection"
            | Raise e => e
            end), tr).
Proof. apply injected_then_unbound. Qed.

(** The exceptions a wrapper raises once its arguments are bound. *)
Lemma injected_error (query : value) (clause : str) :
  let e := match modify_from_clause_for_timetravel query clause with
           | Ok _ => NameError "connection"
           | Raise e => e
           end in
  e = TypeError \/ e = TemplateError \/ e = IndexError
  \/ e = NameError "connection".
Proof.
  simpl.
  destruct (modify_from_clause_for_timetravel query clause) as [r|e] eqn:H;
    [now do 3 right|].
  destruct (modify_error _ _ _ H) as [-> | [-> | ->]]; auto.
Qed.

End Unbound.

(** C4, as stated, fails: not every call ends in [NameError].  A call in
    the form the docstrings show, the connection first, does not bind its
    arguments and raises [TypeError]; and a call of [query_at_time] with a
    timestamp string that carries an invalid group reference raises
    [re.error] while the replacement is compiled, before it reads
    [connection]. *)
Lemma query_at_time_bad_escape :
  call_query_at_time quiet_world module_globals
    [VObj 50; VStr (lit "select * from T where x=1")]
    [("timestamp"%string, VInt 7)] []
  = (Raise TypeError, [])
  /\ exn_class TypeError <> "NameError"%string
  /\ call_query_at_time quiet_world module_globals
       [VStr (lit "select * from T where x=1"); VStr (lit "2023-07-22\2");
        VStr (lit "DB")] [] []
     = (Raise TemplateError, [])
  /\ exn_class TemplateError <> "NameError"%string.
Proof.
  split; [vm_compute; reflexivity|]. split; [discriminate|].
  split; [vm_compute; reflexivity | discriminate].
Qed.

(** C4, amended.  Whatever the positional and keyword arguments and
    whatever the world, a call of [execute_query], [compare_timetravel],
    [query_at_offset] or [query_at_time] raises and leaves the trace as
    it was: no query is dispatched and nothing is returned.  The
    exception is [TypeError] or [NameError] on [connection], and for the
    two wrappers that inject a clause it may also be [re.error] or
    [IndexError].  Once the arguments are bound, [execute_query] and
    [compare_timetravel] raise [NameError] on [connection]; the two
    wrappers raise what the injector raises for their query and clause,
    and [NameError] on [connection] when the injector returns, as it does
    for a query string and an [int] offset, and for a query string and an
    [int] or [datetime] timestamp. *)
Theorem no_call_dispatches
  (w : world) (pos : list value) (kw : list (string * value))
  (tr : list event) (q : str) (n : Z) (d : datetime)
  (query days_ago timestamp db dcn params cd : value) :
  (exists e : exn,
     call_execute_query w module_globals pos kw tr = (Raise e, tr)
     /\ (e = TypeError \/ e = NameError "connection"))
  /\ (exists e : exn,
        call_compare_timetravel w module_globals pos kw tr = (Raise e, tr)
        /\ (e = TypeError \/ e = NameError "connection"))
  /\ (exists e : exn,
        call_query_at_offset w module_globals pos kw tr = (Raise e, tr)
        /\ (e = TypeError \/ e = TemplateError \/ e = IndexError
            \/ e = NameError "connection"))
  /\ (exists e : exn,
        call_query_at_time w module_globals pos kw tr = (Raise e, tr)
        /\ (e = TypeError \/ e = TemplateError \/ e = IndexError
            \/ e = NameError "connection"))
  /\ execute_query w module_globals query dcn cd tr
     = (Raise (NameError "connection"), tr)
  /\ compare_timetravel w module_globals query days_ago db dcn params cd tr
     = (Raise (NameError "connection"), tr)
  /\ query_at_offset w module_globals query days_ago db dcn params cd tr
     = (Raise (match modify_from_clause_for_timetravel
                       query (offset_clause w days_ago) with
               | Ok _ => NameError "connection"
               | Raise e => e
               end), tr)
  /\ query_at_time w module_globals query timestamp db dcn params cd tr
     = (Raise (match modify_from_clause_for_timetravel
                       query (time_travel_clause_of w timestamp) with
               | Ok _ => NameError "connection"
               | Raise e => e
               end), tr)
  /\ query_at_offset w module_globals (VStr q) (VInt n) db dcn params cd tr
     = (Raise (NameError "connection"), tr)
  /\ query_at_time w module_globals (VStr q) (VInt n) db dcn params cd tr
     = (Raise (NameError "connection"), tr)
  /\ query_at_time w module_globals (VStr q) (VDatetime d) db dcn params cd tr
     = (Raise (NameError "connection"), tr).
Proof.
  pose proof connection_unbound as Hc.
  split.
  { unfold call_execute_query.
    destruct (call3_outcome execute_query_params
                (execute_query w module_globals) pos kw tr)
      as [H | (a1 & a2 & a3 & H)]; rewrite H; [eauto|].
    rewrite (execute_query_unbound w _ Hc). eauto. }
  split.
  { unfold call_compare_timetravel.
    destruct (call6_outcome compare_timetravel_params
                (compare_timetravel w module_globals) pos kw tr)
      as [H | (a1 & a2 & a3 & a4 & a5 & a6 & H)]; rewrite H; [eauto|].
    rewrite (compare_timetravel_unbound w _ Hc). eauto. }
  split.
  { unfold call_query_at_offset.
    destruct (call6_outcome query_at_offset_params
                (query_at_offset w module_globals) pos kw tr)
      as [H | (a1 & a2 & a3 & a4 & a5 & a6 & H)]; rewrite H; [eauto|].
    rewrite (query_at_offset_unbound w _ Hc).
    eexists. split; [reflexivity | apply injected_error]. }
  split.
  { unfold call_query_at_time.
    destruct (call6_outcome query_at_time_params
                (query_at_time w module_globals) pos kw tr)
      as [H | (a1 & a2 & a3 & a4 & a5 & a6 & H)]; rewrite H; [eauto|].
    rewrite (query_at_time_unbound w _ Hc).
    eexists. split; [reflexivity | apply injected_error]. }
  split; [now apply execute_query_unbound|].
  split; [now apply compare_timetravel_unbound|].
  split; [now apply query_at_offset_unbound|].
  split; [now apply query_at_time_unbound|].
  split.
  { rewrite (query_at_offset_unbound w _ Hc).
    now destruct (modify_plain q _ (offset_clause_no_backslash w n))
      as [r ->]. }
  split; rewrite (query_at_time_unbound w _ Hc).
  - now destruct (modify_plain q _ (built_clause_no_backslash w (VInt n)))
      as [r ->].
  - now destruct
      (modify_plain q _ (built_clause_no_backslash w (VDatetime d)))
      as [r ->].
Qed.

(** C2: the code departs from the specification.  [compare_timetravel],
    on a query and the offset 7, raises [NameError] on [connection] before
    it makes any call; the executor, which would answer with a table, is
    never asked, and no pair comes back. *)
Theorem compare_raises_before_dispatch :
  compare_timetravel (hex_world (Ok (VObj 7))) module_globals
    (VStr (lit "select * from T where x=1")) (VInt 7)
    VNone (VStr (lit "Analytics")) VNone (VBool true) []
  = (Raise (NameError "connection"), []).
Proof. vm_compute. reflexivity. Qed.

(** *** Errors of the executor *)

Section Handing.

Variable w : world.
Variable G : gmap string value.















End Handing.






(** * Further properties *)

(** ** The pattern and the injector *)

(** X1.  The pattern matches at the start of a text exactly when the text
    opens with the keyword in any case, one or more white-space
    characters, one or more characters of the identifier class and one
    white-space character; the greedy match is the only one. *)
Theorem match_here_iff (s : str) (m : fmatch) (rest : str) :
  match_here s = Some (m, rest) <-> s = m_text m ++ rest /\ valid_match m.
Proof.
  split.
  - apply match_here_sound.
  - intros [-> Hv]. now apply match_here_complete.
Qed.

(** X2.  With a clause that has no backslash, the injector rewrites every
    match of the pattern, however many there are, to
    [from <identifier> <clause> ], keeps the identifiers as written and
    keeps all the text between and around the matches. *)
Theorem modify_all_clauses (s q : str) :
  no_backslash q = true ->
  s = rebuild m_text (fst (finditer s)) (snd (finditer s))
  /\ Forall (fun gm => valid_match (snd gm)) (fst (finditer s))
  /\ modify_from_clause_for_timetravel (VStr s) q
     = Ok (VStr (rebuild
                   (fun m => lit "from " ++ m_ident m ++ lit " " ++ q
                             ++ lit " ")
                   (fst (finditer s)) (snd (finditer s)))).
Proof.
  intros Hq. destruct (finditer s) as [ms tl] eqn:Hf.
  exact (modify_rebuild s q ms tl Hq Hf).
Qed.

Lemma modify_all_clauses_witness :
  no_backslash (lit "AT (OFFSET => -60)") = true
  /\ modify_from_clause_for_timetravel
       (VStr (lit "select * from a join b on x where y in (select y from c )"))
       (lit "AT (OFFSET => -60)")
     = Ok (VStr (lit
         "select * from a AT (OFFSET => -60) join b on x where y in (select y from c AT (OFFSET => -60) )")).
Proof.
  split; [reflexivity|].
  destruct (modify_all_clauses
              (lit "select * from a join b on x where y in (select y from c )")
              (lit "AT (OFFSET => -60)") eq_refl) as (_ & _ & H).
  rewrite H. vm_compute. reflexivity.
Defined.

(** X3.  When the replacement compiles and the pattern matches at no
    position of the query, the injector hands the query back as it is. *)
Theorem modify_without_match (s q : str) (items : list titem) :
  parse_template (replacement q) = Some items ->
  (forall (a : str) (m : fmatch) (rest : str),
      valid_match m -> s <> a ++ m_text m ++ rest) ->
  modify_from_clause_for_timetravel (VStr s) q = Ok (VStr s).
Proof.
  intros Hp Hno. apply (modify_no_clause s q items Hp).
  apply no_clause_iff. intros a b Hab.
  destruct (match_here b) as [[m rest]|] eqn:Hm; [|reflexivity].
  apply match_here_sound in Hm as [-> Hv].
  exfalso. exact (Hno a m rest Hv Hab).
Qed.

Lemma modify_without_match_witness :
  modify_from_clause_for_timetravel
    (VStr (lit "select 1")) (lit "AT (OFFSET => -60)")
  = Ok (VStr (lit "select 1")).
Proof.
  apply (modify_without_match (lit "select 1") (lit "AT (OFFSET => -60)")
           (replacement_items (lit "AT (OFFSET => -60)"))).
  - reflexivity.
  - intros a m rest Hv Hs.
    assert (H0 : from_clauses (lit "select 1") = 0) by reflexivity.
    rewrite no_clause_iff in H0.
    specialize (H0 a (m_text m ++ rest) Hs).
    rewrite (match_here_complete m rest Hv) in H0. discriminate.
Defined.














(** ** The qualifier *)

(** X5.  The clause of an integer offset names that offset and no other:
    two offsets give the same clause exactly when they are equal, in
    [query_at_time] and in [query_at_offset]. *)
Theorem integer_clause_injective (w w' : world) (n n' : Z) :
  (time_travel_clause_of w (VInt n) = time_travel_clause_of w' (VInt n')
   <-> n = n')
  /\ (offset_clause w (VInt n) = offset_clause w' (VInt n') <-> n = n').
Proof.
  assert (H : lit "AT (TIMESTAMP => DATEADD(DAY, -" ++ dec n
                ++ lit ", CURRENT_TIMESTAMP()))"
              = lit "AT (TIMESTAMP => DATEADD(DAY, -" ++ dec n'
                ++ lit ", CURRENT_TIMESTAMP()))" -> n = n').
  { intros E. apply app_inv_head in E. apply app_inv_tail in E.
    pose proof (read_int_dec n) as R. rewrite E, read_int_dec in R.
    congruence. }
  split; (split; [exact H | now intros ->]).
Qed.

Lemma fixed2 (s : str) : length s = 2 -> exists a b, s = [a; b].
Proof. destruct s as [|a [|b [|]]]; try discriminate. eauto. Qed.

Lemma clause_stamp_between (s : str) :
  forallb (fun c => negb (Ascii.eqb c "'")) s = true ->
  clause_stamp (lit "AT (TIMESTAMP => '" ++ s ++ lit "')") = s.
Proof.
  intros H. unfold clause_stamp.
  change (skipn 18 (lit "AT (TIMESTAMP => '" ++ s ++ lit "')"))
    with (s ++ lit "')").
  now rewrite (span_app_stop _ s (lit "')") H).
Qed.

Lemma digits_not_quote (s : str) :
  forallb is_digit s = true ->
  forallb (fun c => negb (Ascii.eqb c "'")) s = true.
Proof.
  induction s as [|c t IH]; simpl; [reflexivity|].
  intros H. apply andb_prop in H as [Hc Ht]. rewrite (IH Ht), andb_true_r.
  destruct c as [[] [] [] [] [] [] [] []]; vm_compute in Hc |- *; congruence.
Qed.

(** A year of one digit or more and five fields of two digits read back
    as the numbers they denote. *)
Lemma parse_stamp_fields (Y Mo D H Mi S : str) :
  Y <> [] -> forallb is_digit Y = true ->
  length Mo = 2 -> forallb is_digit Mo = true ->
  length D = 2 -> forallb is_digit D = true ->
  length H = 2 -> forallb is_digit H = true ->
  length Mi = 2 -> forallb is_digit Mi = true ->
  length S = 2 -> forallb is_digit S = true ->
  parse_stamp (Y ++ lit "-" ++ Mo ++ lit "-" ++ D ++ lit " " ++ H ++ lit ":"
               ++ Mi ++ lit ":" ++ S)
  = Some (digits_value Y, digits_value Mo, digits_value D, digits_value H,
          digits_value Mi, digits_value S).
Proof.
  intros HY DY L2 D2 L3 D3 L4 D4 L5 D5 L6 D6.
  destruct (fixed2 _ L2) as (m1 & m2 & ->).
  destruct (fixed2 _ L3) as (d1 & d2 & ->).
  destruct (fixed2 _ L4) as (h1 & h2 & ->).
  destruct (fixed2 _ L5) as (n1 & n2 & ->).
  destruct (fixed2 _ L6) as (s1 & s2 & ->).
  unfold parse_stamp.
  rewrite (span_app_stop is_digit Y _ DY) by reflexivity.
  destruct Y as [|y0 Y]; [congruence|].
  unfold is_char, field.
  cbn [lit list_ascii_of_string app skipn firstn length Nat.eqb andb negb].
  rewrite !bool_decide_eq_true_2 by reflexivity.
  cbn [andb]. rewrite D2, D3, D4, D5, D6. reflexivity.
Qed.

(** X6.  For a [datetime] with its fields in range, the time stamp inside
    the clause reads back as the year, month, day, hour, minute and second
    of the value, whether the C library pads the year or not; so two such
    values give the same clause only if they agree on these six fields. *)
Theorem datetime_clause_reads_back (w : world) (d : datetime) :
  valid_datetime d ->
  parse_stamp (clause_stamp (time_travel_clause_of w (VDatetime d)))
  = Some (year d, month d, day d, hour d, minute d, second d).
Proof.
  intros (Hy & Hmo & Hd & Hh & Hmi & Hs).
  destruct (year_text_digits w (year d) Hy) as (D1 & V1 & N1 & _ & _).
  destruct (zpad2_digits (month d)) as (L2 & D2 & V2); [lia|].
  destruct (zpad2_digits (day d)) as (L3 & D3 & V3); [lia|].
  destruct (zpad2_digits (hour d)) as (L4 & D4 & V4); [lia|].
  destruct (zpad2_digits (minute d)) as (L5 & D5 & V5); [lia|].
  destruct (zpad2_digits (second d)) as (L6 & D6 & V6); [lia|].
  unfold time_travel_clause_of. rewrite clause_stamp_between.
  - unfold strftime.
    rewrite parse_stamp_fields by assumption.
    now rewrite V1, V2, V3, V4, V5, V6.
  - unfold strftime. rewrite !forallb_app.
    rewrite (digits_not_quote _ D1), (digits_not_quote _ D2),
      (digits_not_quote _ D3), (digits_not_quote _ D4),
      (digits_not_quote _ D5), (digits_not_quote _ D6).
    reflexivity.
Qed.

Lemma datetime_clause_reads_back_witness :
  parse_stamp
    (clause_stamp
       (time_travel_clause_of quiet_world
          (VDatetime (mk_datetime 999 1 2 3 4 5 250000 None))))
  = Some (999, 1, 2, 3, 4, 5)%Z.
Proof.
  apply (datetime_clause_reads_back quiet_world
           (mk_datetime 999 1 2 3 4 5 250000 None)).
  unfold valid_datetime; simpl; lia.
Defined.

(** ** The wrappers in a namespace that binds the missing names *)

Lemma execute_query_bound
  (w : world) (G : gmap string value) (c : nat) (p attr : value)
  (query dcn cd : value) (tr : list event) :
  G !! "connection"%string = Some (VObj c) ->
  G !! "params"%string = Some p ->
  getattr_obj w tr c "execute" = Ok attr ->
  execute_query w G query dcn cd tr
  = (call_obj w tr c "execute" [query; p],
     tr ++ [Called (VObj c) "execute" [query; p]]).
Proof.
  intros Hc Hp Ha.
  unfold execute_query, bind, load_name, hasattr, getattr, invoke, ret.
  repeat (progress (rewrite ?Hc, ?Hp, ?Ha; simpl)).
  now destruct (call_obj w tr c "execute" [query; p]).
Qed.

(** X7.  Where [connection] is bound to an object with an [execute]
    attribute and [params] is bound, [execute_query] makes exactly one
    call: [connection.execute(query, params)] with the query as received
    and the [params] of the namespace.  It returns what the call returns
    and raises what it raises, unchanged; its other two arguments play no
    part. *)
Theorem execute_query_hex_dispatch
  (w : world) (G : gmap string value) (c : nat) (p attr : value)
  (query dcn cd : value) (tr : list event) :
  G !! "connection"%string = Some (VObj c) ->
  G !! "params"%string = Some p ->
  getattr_obj w tr c "execute" = Ok attr ->
  execute_query w G query dcn cd tr
  = (call_obj w tr c "execute" [query; p],
     tr ++ [Called (VObj c) "execute" [query; p]]).
Proof. apply execute_query_bound. Qed.

Lemma execute_query_hex_dispatch_witness :
  execute_query
    (hex_world (Raise (External "ExecutionError" (lit "no such table"))))
    patched_globals (VStr (lit "select 1")) VNone VNone []
  = (Raise (External "ExecutionError" (lit "no such table")),
     [Called (VObj 50) "execute" [VStr (lit "select 1"); VNone]]).
Proof.
  apply (execute_query_hex_dispatch
           (hex_world (Raise (External "ExecutionError" (lit "no such table"))))
           patched_globals 50 VNone VNone); reflexivity.
Defined.

(** ** Counting the calls *)

Section Counting.

Variable sel : event -> bool.

Lemma count_calls_app (a b : list event) :
  count_calls sel (a ++ b) = count_calls sel a + count_calls sel b.
Proof. unfold count_calls. now rewrite List.filter_app, length_app. Qed.

(** A computation that makes no call. *)
Lemma makes_silent {A : Type} (m : M A) :
  (forall tr, snd (m tr) = tr) -> makes sel 0 0 m.
Proof.
  intros H tr. exists []. rewrite app_nil_r, H. simpl.
  repeat split; unfold count_calls; simpl; lia.
Qed.

Lemma makes_weaken {A : Type} (lo lo' hi hi' : nat) (m : M A) :
  lo' <= lo -> hi <= hi' -> makes sel lo hi m -> makes sel lo' hi' m.
Proof.
  intros Hlo Hhi H tr. destruct (H tr) as (evs & E & Hh & Hl).
  exists evs. repeat split; [exact E | lia |].
  intros a Ha. specialize (Hl a Ha). lia.
Qed.

Lemma makes_bind {A B : Type} (lo1 hi1 lo2 hi2 : nat)
  (m : M A) (k : A -> M B) :
  makes sel lo1 hi1 m -> (forall a, makes sel lo2 hi2 (k a)) ->
  makes sel (lo1 + lo2) (hi1 + hi2) (bind m k).
Proof.
  intros Hm Hk tr. destruct (Hm tr) as (evs1 & E1 & Hh1 & Hl1).
  unfold bind. destruct (m tr) as [[a|e] tr1]; simpl in *.
  - subst tr1. destruct (Hk a (tr ++ evs1)) as (evs2 & E2 & Hh2 & Hl2).
    exists (evs1 ++ evs2). rewrite E2, <- app_assoc, count_calls_app.
    repeat split; [lia|].
    intros b Hb. specialize (Hl1 a eq_refl). specialize (Hl2 b Hb). lia.
  - exists evs1. repeat split; [exact E1 | lia | discriminate].
Qed.

Lemma makes_invoke (w : world) (obj : value) (name : string)
  (args : list value) (n : nat) :
  n = (if sel (Called obj name args) then 1 else 0) ->
  makes sel n n (invoke w obj name args).
Proof.
  intros -> tr. unfold invoke. destruct obj;
    try (exists []; rewrite app_nil_r; simpl;
         repeat split; [unfold count_calls; simpl; lia | discriminate]).
  exists [Called (VObj id) name args]. simpl.
  unfold count_calls. simpl.
  destruct (sel (Called (VObj id) name args)); simpl; repeat split; lia.
Qed.

End Counting.

Section Rules.
Variable sel : event -> bool.
Variable w : world.
Variable G : gmap string value.

Lemma makes_ret {A : Type} (a : A) : makes sel 0 0 (ret a).
Proof. now apply makes_silent. Qed.

Lemma makes_raise {A : Type} (e : exn) : makes sel 0 0 (@raise A e).
Proof. now apply makes_silent. Qed.


Lemma makes_load (name : string) : makes sel 0 0 (load_name G name).
Proof.
  apply makes_silent. intros tr. unfold load_name.
  now destruct (G !! name).
Qed.

Lemma makes_getattr (obj : value) (name : string) :
  makes sel 0 0 (getattr w obj name).
Proof. apply makes_silent. intros tr. unfold getattr. now destruct obj. Qed.

Lemma makes_hasattr (obj : value) (name : string) :
  makes sel 0 0 (hasattr w obj name).
Proof.
  apply makes_silent. intros tr. unfold hasattr, getattr.
  destruct obj; try reflexivity.
  destruct (getattr_obj w tr id name) as [v|[]]; reflexivity.
Qed.

Lemma makes_iterate (v : value) : makes sel 0 0 (iterate w v).
Proof. apply makes_silent. intros tr. unfold iterate. now destruct v. Qed.

Lemma makes_mapM_getitem0 (l : list value) :
  makes sel 0 0 (mapM (getitem0 w) l).
Proof.
  apply makes_silent. intros tr.
  destruct (mapM_getitem0_trace w l tr) as [r ->]. reflexivity.
Qed.

Lemma makes_call_method (obj : value) (name : string) (args : list value)
  (n : nat) :
  n = (if sel (Called obj name args) then 1 else 0) ->
  makes sel n n (call_method w obj name args).
Proof.
  intros Hn. unfold call_method.
  apply (makes_bind sel 0 0 n n); [apply makes_getattr|].
  intros _. now apply makes_invoke.
Qed.

End Rules.

Lemma execute_query_makes
  (w : world) (G : gmap string value) (query dcn cd : value) :
  makes is_execute 1 1 (execute_query w G query dcn cd).
Proof.
  unfold execute_query.
  apply (makes_bind _ 0 0 1 1); [apply makes_load|]. intros c.
  apply (makes_bind _ 0 0 1 1); [apply makes_hasattr|]. intros [|].
  - apply (makes_bind _ 0 0 1 1); [apply makes_load|]. intros c1.
    apply (makes_bind _ 0 0 1 1); [apply makes_getattr|]. intros _.
    apply (makes_bind _ 0 0 1 1); [apply makes_load|]. intros p.
    now apply makes_invoke.
  - apply (makes_bind _ 0 0 1 1); [apply makes_load|]. intros c1.
    apply (makes_bind _ 0 0 1 1); [now apply makes_call_method|]. intros cur.
    apply (makes_bind _ 0 0 1 1); [apply makes_getattr|]. intros _.
    apply (makes_bind _ 0 0 1 1); [apply makes_load|]. intros p.
    apply (makes_bind _ 1 1 0 0); [now apply makes_invoke|]. intros _.
    apply (makes_bind _ 0 0 0 0); [apply makes_getattr|]. intros d.
    apply (makes_bind _ 0 0 0 0); [apply makes_iterate|]. intros ds.
    apply (makes_bind _ 0 0 0 0); [apply makes_mapM_getitem0|]. intros cols.
    apply (makes_bind _ 0 0 0 0); [now apply makes_call_method|]. intros data.
    apply (makes_bind _ 0 0 0 0); [apply makes_load|]. intros pd.
    now apply makes_call_method.
Qed.



(** X8.  In every namespace and every world, [execute_query] only adds
    calls to the trace and dispatches at most one query; when it returns,
    it has dispatched exactly one. *)
Theorem execute_query_one_dispatch
  (w : world) (G : gmap string value) (query dcn cd : value) :
  makes is_execute 1 1 (execute_query w G query dcn cd).
Proof. apply execute_query_makes. Qed.





(** X11.  Binding [connection] does not repair [compare_timetravel]:
    where the name is bound to anything but a [str], the call passes the
    connection to the injector in the place of the query and raises
    [TypeError] (or what the template compiler raises, [re.error] or
    [IndexError], when the query text it formats into the clause does not
    compile as a replacement) before any call is made. *)
Theorem compare_bound_still_fails
  (w : world) (G : gmap string value) (c : value)
  (query days_ago db dcn params cd : value) (tr : list event) :
  G !! "connection"%string = Some c ->
  (forall s : str, c <> VStr s) ->
  exists e : exn,
    compare_timetravel w G query days_ago db dcn params cd tr = (Raise e, tr)
    /\ (e = TypeError \/ e = TemplateError \/ e = IndexError).
Proof.
  intros Hc Hs.
  unfold compare_timetravel, bind at 1. unfold load_name at 1. rewrite Hc.
  simpl. unfold bind at 1. unfold query_at_offset, bind at 1.
  unfold lift, modify_from_clause_for_timetravel, sub_from.
  destruct (compile_repl _) as [items|e] eqn:Ht.
  - destruct c; eauto. now destruct (Hs s).
  - destruct (compile_repl_error _ _ Ht) as [-> | ->]; eauto.
Qed.

Lemma compare_bound_still_fails_witness :
  exists e : exn,
    compare_timetravel (hex_world (Ok (VObj 7))) patched_globals
      (VStr (lit "select * from T where x=1")) (VInt 7)
      VNone (VStr (lit "Analytics")) VNone (VBool true) []
    = (Raise e, [])
    /\ (e = TypeError \/ e = TemplateError \/ e = IndexError).
Proof.
  apply (compare_bound_still_fails (hex_world (Ok (VObj 7))) patched_globals
           (VObj 50)); [reflexivity | discriminate].
Defined.


(** ** Calling the wrappers *)

Lemma fill_keyword_taken (slots : list (param * option value))
  (name : string) (v v0 : value) :
  slot_state slots name = Some (Some v0) ->
  fill_keyword slots name v = Raise TypeError.
Proof.
  induction slots as [|[p cur] rest IH]; simpl; [discriminate|].
  destruct (String.eqb (p_name p) name).
  - now intros [= ->].
  - intros H. now rewrite (IH H).
Qed.

Lemma fill_keyword_keeps (slots slots' : list (param * option value))
  (name name' : string) (v : value) (st : option value) :
  fill_keyword slots name' v = Ok slots' ->
  name' <> name ->
  slot_state slots name = Some st ->
  slot_state slots' name = Some st.
Proof.
  revert slots'. induction slots as [|[p cur] rest IH]; simpl; intros slots';
    [discriminate|].
  destruct (String.eqb (p_name p) name') eqn:E'.
  - apply String.eqb_eq in E'.
    destruct cur; [discriminate|]. intros [= <-] Hne. simpl.
    destruct (String.eqb (p_name p) name) eqn:E; [|auto].
    apply String.eqb_eq in E. congruence.
  - destruct (fill_keyword rest name' v) as [rest'|e] eqn:Hr; [|discriminate].
    intros [= <-] Hne. simpl.
    destruct (String.eqb (p_name p) name); [auto|].
    now apply IH.
Qed.

(** A keyword argument for a parameter that is already filled makes the
    binding fail. *)
Lemma fill_keywords_taken (kw : list (string * value))
  (slots : list (param * option value)) (name : string) (v0 : value) :
  slot_state slots name = Some (Some v0) ->
  has_keyword kw name = true ->
  fill_keywords slots kw = Raise TypeError.
Proof.
  revert slots. induction kw as [|[name' v] kw IH]; intros slots Hs Hk;
    [discriminate|].
  simpl in *. destruct (String.eqb name' name) eqn:E.
  - apply String.eqb_eq in E. subst name'.
    now rewrite (fill_keyword_taken slots name v v0 Hs).
  - destruct (fill_keyword slots name' v) as [slots'|e] eqn:Hf.
    + apply (IH slots'); [|exact Hk].
      apply (fill_keyword_keeps slots slots' name name' v (Some v0) Hf);
        [|exact Hs].
      intros ->. now rewrite String.eqb_refl in E.
    + now rewrite (fill_keyword_error _ _ _ _ Hf).
Qed.

Lemma fill_defaults_unfilled (slots : list (param * option value)) :
  existsb unfilled slots = true -> fill_defaults slots = Raise TypeError.
Proof.
  induction slots as [|[p cur] rest IH]; simpl; [discriminate|].
  unfold unfilled at 1. simpl.
  destruct cur as [v|]; simpl.
  - intros H. now rewrite (IH H).
  - destruct (p_default p) as [d|]; simpl; [|reflexivity].
    intros H. now rewrite (IH H).
Qed.

Lemma fill_keyword_unfilled (slots slots' : list (param * option value))
  (name' : string) (v : value) (name : string) :
  fill_keyword slots name' v = Ok slots' ->
  name' <> name ->
  existsb (fun s => unfilled s && String.eqb (p_name (fst s)) name) slots
  = true ->
  existsb (fun s => unfilled s && String.eqb (p_name (fst s)) name) slots'
  = true.
Proof.
  revert slots'. induction slots as [|[p cur] rest IH]; simpl; intros slots';
    [discriminate|].
  destruct (String.eqb (p_name p) name') eqn:E'.
  - apply String.eqb_eq in E'.
    destruct cur; [discriminate|]. intros [= <-] Hne. simpl.
    destruct (String.eqb (p_name p) name) eqn:E.
    + apply String.eqb_eq in E. congruence.
    + now rewrite !andb_false_r.
  - destruct (fill_keyword rest name' v) as [rest'|e] eqn:Hr; [|discriminate].
    intros [= <-] Hne. simpl.
    destruct (unfilled (p, cur) && String.eqb (p_name p) name); [reflexivity|].
    simpl. now apply IH.
Qed.

(** A required parameter that no argument fills makes the binding fail. *)
Lemma fill_keywords_unfilled (kw : list (string * value))
  (slots : list (param * option value)) (name : string) :
  existsb (fun s => unfilled s && String.eqb (p_name (fst s)) name) slots
  = true ->
  has_keyword kw name = false ->
  match fill_keywords slots kw with
  | Ok slots' => fill_defaults slots' = Raise TypeError
  | Raise e => e = TypeError
  end.
Proof.
  revert slots. induction kw as [|[name' v] kw IH]; intros slots Hs Hk.
  - simpl. apply fill_defaults_unfilled.
    apply existsb_exists. apply existsb_exists in Hs as (s & Hin & Hu).
    exists s. split; [exact Hin|]. now apply andb_prop in Hu as [Hu _].
  - simpl in *. apply orb_false_elim in Hk as [E Hk].
    destruct (fill_keyword slots name' v) as [slots'|e] eqn:Hf.
    + apply IH; [|exact Hk].
      apply (fill_keyword_unfilled slots slots' name' v name Hf); [|exact Hs].
      intros ->. now rewrite String.eqb_refl in E.
    + now apply (fill_keyword_error _ _ _ _ Hf).
Qed.

Lemma call6_binding_fails {A : Type} (sig : list param)
  (body : value -> value -> value -> value -> value -> value -> M A)
  (pos : list value) (kw : list (string * value)) (tr : list event) :
  bind_arguments sig pos kw = Raise TypeError ->
  call6 sig body pos kw tr = (Raise TypeError, tr).
Proof. intros H. unfold call6. now rewrite H. Qed.

(** The shape of the calls in the docstrings and in the example notebook:
    the connection and the query by position, the next parameter by
    keyword. *)
Lemma second_by_keyword (sig : list param) (p1 p2 : param)
  (a b : value) (rest : list value) (kw : list (string * value)) :
  String.eqb (p_name p1) (p_name p2) = false ->
  has_keyword kw (p_name p2) = true ->
  bind_arguments (p1 :: p2 :: sig) (a :: b :: rest) kw = Raise TypeError.
Proof.
  intros Hne Hk. unfold bind_arguments. simpl.
  destruct (fill_positional sig rest) as [slots|e] eqn:Hp.
  - rewrite (fill_keywords_taken kw _ (p_name p2) b); [reflexivity | | exact Hk].
    simpl. now rewrite Hne, String.eqb_refl.
  - now rewrite (fill_positional_error _ _ _ Hp).
Qed.

Lemma has_keyword_mid (kw1 kw2 : list (string * value)) (name : string)
  (v : value) :
  has_keyword (kw1 ++ (name, v) :: kw2) name = true.
Proof.
  unfold has_keyword. rewrite existsb_app. simpl.
  now rewrite String.eqb_refl, orb_true_r.
Qed.

(** X12.  The calls the docstrings and the example notebook show are
    rejected when the arguments are bound: with two or more positional
    arguments (a connection, then the query) and [days_ago] or
    [timestamp] among the keyword arguments, the second parameter gets
    two values, and the call raises [TypeError] before the body runs. *)
Theorem documented_calls_rejected
  (w : world) (G : gmap string value) (conn query v : value)
  (rest : list value) (kw1 kw2 : list (string * value)) (tr : list event) :
  call_query_at_time w G (conn :: query :: rest)
    (kw1 ++ ("timestamp"%string, v) :: kw2) tr
  = (Raise TypeError, tr)
  /\ call_query_at_offset w G (conn :: query :: rest)
       (kw1 ++ ("days_ago"%string, v) :: kw2) tr
     = (Raise TypeError, tr)
  /\ call_compare_timetravel w G (conn :: query :: rest)
       (kw1 ++ ("days_ago"%string, v) :: kw2) tr
     = (Raise TypeError, tr).
Proof.
  repeat split; apply call6_binding_fails;
    (apply second_by_keyword; [reflexivity | apply has_keyword_mid]).
Qed.

Lemma required_third (p1 p2 p3 : param) (sig : list param)
  (pos : list value) (kw : list (string * value)) :
  p_default p3 = None ->
  length pos <= 2 ->
  has_keyword kw (p_name p3) = false ->
  bind_arguments (p1 :: p2 :: p3 :: sig) pos kw = Raise TypeError.
Proof.
  intros Hd Hlen Hk. unfold bind_arguments.
  assert (Hs : exists slots,
             fill_positional (p1 :: p2 :: p3 :: sig) pos = Ok slots
             /\ existsb (fun s => unfilled s
                                  && String.eqb (p_name (fst s)) (p_name p3))
                        slots = true).
  { assert (Hu : unfilled (p3, None)
                 && String.eqb (p_name (fst (p3, @None value))) (p_name p3)
                 = true).
    { unfold unfilled. simpl. now rewrite Hd, String.eqb_refl. }
    destruct pos as [|a [|b [|c pos]]]; simpl in Hlen; try lia;
      simpl; eexists; (split; [reflexivity|]);
      apply existsb_exists; exists (p3, None);
      (split; [simpl; tauto | exact Hu]). }
  destruct Hs as (slots & -> & Hs).
  pose proof (fill_keywords_unfilled kw slots (p_name p3) Hs Hk) as H.
  destruct (fill_keywords slots kw); [exact H | now subst].
Qed.

(** X13.  [db_name] is required by [query_at_time] and [query_at_offset],
    though their bodies never read it: a call that passes at most two
    positional arguments and no keyword [db_name] raises [TypeError]
    before the body runs. *)
Theorem db_name_required
  (w : world) (G : gmap string value)
  (pos : list value) (kw : list (string * value)) (tr : list event) :
  length pos <= 2 ->
  has_keyword kw "db_name" = false ->
  call_query_at_time w G pos kw tr = (Raise TypeError, tr)
  /\ call_query_at_offset w G pos kw tr = (Raise TypeError, tr).
Proof.
  intros Hlen Hk.
  split; apply call6_binding_fails; now apply required_third.
Qed.

Lemma db_name_required_witness :
  call_query_at_offset quiet_world module_globals
    [VStr (lit "select * from T where x=1"); VInt 7] [] []
  = (Raise TypeError, []).
Proof.
  apply (db_name_required quiet_world module_globals
           [VStr (lit "select * from T where x=1"); VInt 7] [] []);
    [simpl; lia | reflexivity].
Defined.


(** ** The toolkit cell *)

(** X14.  Without a connection name ([None], or the empty string, or any
    falsy value), [sql_cell] makes one call,
    [hextoolkit.query_dataframes(source, cast_decimals)], with the source
    as received, and returns what the call returns or raises what it
    raises. *)
Theorem sql_cell_default
  (w : world) (G : gmap string value) (h : nat) (attr : value)
  (source name cd : value) (tr : list event) :
  truthy w name = false ->
  G !! "hextoolkit"%string = Some (VObj h) ->
  getattr_obj w tr h "query_dataframes" = Ok attr ->
  sql_cell w G source name cd tr
  = (call_obj w tr h "query_dataframes" [source; cd],
     tr ++ [Called (VObj h) "query_dataframes" [source; cd]]).
Proof.
  intros Hn Hh Ha.
  unfold sql_cell. rewrite Hn.
  unfold bind, load_name, call_method, bind, getattr, invoke.
  rewrite Hh. simpl. rewrite Ha. reflexivity.
Qed.

Lemma sql_cell_default_witness :
  sql_cell (hex_world (Ok (VObj 7))) module_globals
    (VStr (lit "select 1")) (VStr []) (VBool true) []
  = (Ok (VObj 7),
     [Called (VObj 11) "query_dataframes" [VStr (lit "select 1"); VBool true]]).
Proof.
  apply (sql_cell_default (hex_world (Ok (VObj 7))) module_globals 11 VNone);
    reflexivity.
Defined.

(** X15.  With a connection name, [sql_cell] first asks the toolkit for
    the connection of that name.  If that call raises, the error is
    handed on and no query is sent; otherwise the one further call is
    [query(source, cast_decimals)] on the connection it got. *)
Theorem sql_cell_named
  (w : world) (G : gmap string value) (h : nat) (attr : value)
  (source name cd : value) (tr : list event) :
  truthy w name = true ->
  G !! "hextoolkit"%string = Some (VObj h) ->
  getattr_obj w tr h "get_data_connection" = Ok attr ->
  sql_cell w G source name cd tr
  = match call_obj w tr h "get_data_connection" [name] with
    | Raise e =>
        (Raise e, tr ++ [Called (VObj h) "get_data_connection" [name]])
    | Ok conn =>
        call_method w conn "query" [source; cd]
          (tr ++ [Called (VObj h) "get_data_connection" [name]])
    end.
Proof.
  intros Hn Hh Ha.
  unfold sql_cell. rewrite Hn.
  unfold bind at 1, load_name. rewrite Hh. simpl.
  unfold bind at 1. unfold call_method at 1, bind at 1, getattr at 1.
  rewrite Ha. unfold invoke at 1.
  now destruct (call_obj w tr h "get_data_connection" [name]).
Qed.

Lemma sql_cell_named_witness :
  sql_cell (hex_world (Raise (External "KeyError" (lit "Analytics"))))
    module_globals (VStr (lit "select 1")) (VStr (lit "Analytics"))
    (VBool true) []
  = (Raise (External "KeyError" (lit "Analytics")),
     [Called (VObj 11) "get_data_connection" [VStr (lit "Analytics")]]).
Proof.
  rewrite (sql_cell_named
             (hex_world (Raise (External "KeyError" (lit "Analytics"))))
             module_globals 11 VNone); reflexivity.
Defined.

(** ** The comparison chart *)

Lemma frame_get_ok (df : frame) (label : str) (c : column) :
  frame_get df label = VOk c -> In (label, c) df.
Proof.
  induction df as [|[l c0] df IH]; simpl; [discriminate|].
  case_bool_decide as Hl.
  - intros [= ->]. subst l. now left.
  - intros H. right. now apply IH.
Qed.

Lemma frame_get_missing (df : frame) (label : str) (e : viz_exn) :
  frame_get df label = VRaise e -> e = KeyError label /\ ~ In label (labels df).
Proof.
  induction df as [|[l c0] df IH]; simpl.
  - intros [= <-]. split; [reflexivity | tauto].
  - case_bool_decide as Hl; [discriminate|].
    intros H. destruct (IH H) as [-> Hn]. split; [reflexivity|].
    intros [Hx | Hx]; [now apply Hl | now apply Hn].
Qed.

Lemma frame_get_present (df : frame) (label : str) :
  In label (labels df) -> exists c, frame_get df label = VOk c.
Proof.
  intros Hin. destruct (frame_get df label) as [c|e] eqn:H; [eauto|].
  apply frame_get_missing in H as [_ Hn]. contradiction.
Qed.

(** X16.  A chart type other than [bar], [line] and [both] is not an
    error: the figure comes back with its layout and no trace at all, and
    the frames are not even read, so it comes back whatever they hold. *)
Theorem unknown_chart_type_empty
  (current_df historical_df : frame)
  (x_column y_column current_label historical_label title chart_type
     date_format : str) :
  chart_in chart_type "bar" "both" = false ->
  chart_in chart_type "line" "both" = false ->
  visualize_comparison true current_df historical_df x_column y_column
    current_label historical_label title chart_type date_format
  = VOk (mk_figure []
           (comparison_layout x_column y_column title date_format)).
Proof.
  intros Hb Hl. unfold visualize_comparison. simpl. now rewrite Hb, Hl.
Qed.

Lemma unknown_chart_type_empty_witness :
  visualize_comparison true [] [] (lit "PERIOD") (lit "SUM")
    (lit "Current Data") (lit "Historical Data") (lit "Data Comparison")
    (lit "Bar") (lit "%b-%Y")
  = VOk (mk_figure []
           (comparison_layout (lit "PERIOD") (lit "SUM")
              (lit "Data Comparison") (lit "%b-%Y"))).
Proof. apply unknown_chart_type_empty; reflexivity. Defined.

Lemma read_columns_error (current_df historical_df : frame)
  (x_column y_column : str) (e : viz_exn) :
  read_columns current_df historical_df x_column y_column = VRaise e ->
  exists k : str,
    e = KeyError k /\ (k = x_column \/ k = y_column)
    /\ (~ In k (labels historical_df) \/ ~ In k (labels current_df)).
Proof.
  unfold read_columns, vbind.
  destruct (frame_get historical_df x_column) eqn:H1.
  2:{ intros [= <-]. apply frame_get_missing in H1 as [-> Hn]. eauto 8. }
  destruct (frame_get historical_df y_column) eqn:H2.
  2:{ intros [= <-]. apply frame_get_missing in H2 as [-> Hn]. eauto 8. }
  destruct (frame_get current_df x_column) eqn:H3.
  2:{ intros [= <-]. apply frame_get_missing in H3 as [-> Hn]. eauto 8. }
  destruct (frame_get current_df y_column) eqn:H4; [discriminate|].
  intros [= <-]. apply frame_get_missing in H4 as [-> Hn]. eauto 8.
Qed.

Lemma visualize_by_columns
  (current_df historical_df : frame)
  (x_column y_column current_label historical_label title chart_type
     date_format : str) :
  visualize_comparison true current_df historical_df x_column y_column
    current_label historical_label title chart_type date_format
  = if chart_in chart_type "bar" "both" || chart_in chart_type "line" "both"
    then
      match read_columns current_df historical_df x_column y_column with
      | VRaise e => VRaise e
      | VOk (hx, hy, cx, cy) =>
          VOk (mk_figure
                 ((if chart_in chart_type "bar" "both"
                   then comparison_bars hx hy cx cy current_label
                          historical_label date_format
                   else [])
                  ++ (if chart_in chart_type "line" "both"
                      then comparison_lines hx hy cx cy current_label
                             historical_label date_format
                      else []))
                 (comparison_layout x_column y_column title date_format))
      end
    else VOk (mk_figure []
                (comparison_layout x_column y_column title date_format)).
Proof.
  unfold visualize_comparison, read_columns, vbind. simpl.
  destruct (chart_in chart_type "bar" "both"),
    (chart_in chart_type "line" "both"); simpl;
    destruct (frame_get historical_df x_column); try reflexivity;
    destruct (frame_get historical_df y_column); try reflexivity;
    destruct (frame_get current_df x_column); try reflexivity;
    destruct (frame_get current_df y_column); reflexivity.
Qed.

(** X17.  [visualize_comparison] raises only two kinds of error:
    [ImportError] when plotly cannot be imported, and otherwise
    [KeyError] for the x or the y column, which then is missing from one
    of the two frames. *)
Theorem visualize_errors
  (plotly : bool) (current_df historical_df : frame)
  (x_column y_column current_label historical_label title chart_type
     date_format : str) (e : viz_exn) :
  visualize_comparison plotly current_df historical_df x_column y_column
    current_label historical_label title chart_type date_format
  = VRaise e ->
  (plotly = false /\ exists msg : str, e = ImportError msg)
  \/ (plotly = true
      /\ exists k : str,
           e = KeyError k /\ (k = x_column \/ k = y_column)
           /\ (~ In k (labels historical_df) \/ ~ In k (labels current_df))).
Proof.
  destruct plotly.
  - rewrite visualize_by_columns. intros H. right. split; [reflexivity|].
    destruct (_ || _); [|discriminate].
    destruct (read_columns current_df historical_df x_column y_column)
      as [[[[hx hy] cx] cy]|e0] eqn:Hr; [discriminate|].
    injection H as <-. now apply read_columns_error in Hr.
  - intros [= <-]. left. eauto.
Qed.

Lemma visualize_errors_witness :
  exists k : str,
    KeyError (lit "SUM") = KeyError k
    /\ (k = lit "PERIOD" \/ k = lit "SUM")
    /\ (~ In k (labels [(lit "PERIOD", [VInt 1]); (lit "SUM", [VInt 2])])
        \/ ~ In k (labels [(lit "PERIOD", [VInt 1])])).
Proof.
  destruct (visualize_errors true
              [(lit "PERIOD", [VInt 1])]
              [(lit "PERIOD", [VInt 1]); (lit "SUM", [VInt 2])]
              (lit "PERIOD") (lit "SUM")
              (lit "Current Data") (lit "Historical Data")
              (lit "Data Comparison") (lit "both") (lit "%b-%Y")
              (KeyError (lit "SUM")) eq_refl) as [[H _] | [_ H]];
    [discriminate | exact H].
Defined.

(** X18.  When plotly is there and both frames have the x and the y
    column, the call succeeds, and the figure holds two bars for [bar],
    two lines for [line] and the two bars followed by the two lines for
    [both]; in each pair the historical series comes first, and each
    trace shows the x and y columns of its frame. *)
Theorem visualize_traces
  (current_df historical_df : frame)
  (x_column y_column current_label historical_label title chart_type
     date_format : str) :
  In x_column (labels historical_df) -> In y_column (labels historical_df) ->
  In x_column (labels current_df) -> In y_column (labels current_df) ->
  exists hx hy cx cy : column,
    In (x_column, hx) historical_df /\ In (y_column, hy) historical_df
    /\ In (x_column, cx) current_df /\ In (y_column, cy) current_df
    /\ visualize_comparison true current_df historical_df x_column y_column
         current_label historical_label title chart_type date_format
       = VOk (mk_figure
                ((if chart_in chart_type "bar" "both"
                  then comparison_bars hx hy cx cy current_label
                         historical_label date_format
                  else [])
                 ++ (if chart_in chart_type "line" "both"
                     then comparison_lines hx hy cx cy current_label
                            historical_label date_format
                     else []))
                (comparison_layout x_column y_column title date_format)).
Proof.
  intros H1 H2 H3 H4.
  destruct (frame_get_present _ _ H1) as [hx Hhx].
  destruct (frame_get_present _ _ H2) as [hy Hhy].
  destruct (frame_get_present _ _ H3) as [cx Hcx].
  destruct (frame_get_present _ _ H4) as [cy Hcy].
  exists hx, hy, cx, cy.
  repeat (split; [now apply frame_get_ok|]).
  rewrite visualize_by_columns. unfold read_columns, vbind.
  rewrite Hhx, Hhy, Hcx, Hcy.
  now destruct (chart_in chart_type "bar" "both"),
    (chart_in chart_type "line" "both").
Qed.

Lemma visualize_traces_witness :
  exists hx hy cx cy : column,
    In (lit "PERIOD", hx) [(lit "PERIOD", [VInt 1]); (lit "SUM", [VInt 2])]
    /\ In (lit "SUM", hy) [(lit "PERIOD", [VInt 1]); (lit "SUM", [VInt 2])]
    /\ In (lit "PERIOD", cx) [(lit "PERIOD", [VInt 1]); (lit "SUM", [VInt 3])]
    /\ In (lit "SUM", cy) [(lit "PERIOD", [VInt 1]); (lit "SUM", [VInt 3])]
    /\ visualize_comparison true
         [(lit "PERIOD", [VInt 1]); (lit "SUM", [VInt 3])]
         [(lit "PERIOD", [VInt 1]); (lit "SUM", [VInt 2])]
         (lit "PERIOD") (lit "SUM")
         (lit "Current Data") (lit "Historical Data")
         (lit "Data Comparison") (lit "both") (lit "%b-%Y")
       = VOk (mk_figure
                ((if chart_in (lit "both") "bar" "both"
                  then comparison_bars hx hy cx cy (lit "Current Data")
                         (lit "Historical Data") (lit "%b-%Y")
                  else [])
                 ++ (if chart_in (lit "both") "line" "both"
                     then comparison_lines hx hy cx cy (lit "Current Data")
                            (lit "Historical Data") (lit "%b-%Y")
                     else []))
                (comparison_layout (lit "PERIOD") (lit "SUM")
                   (lit "Data Comparison") (lit "%b-%Y"))).
Proof.
  apply (visualize_traces
           [(lit "PERIOD", [VInt 1]); (lit "SUM", [VInt 3])]
           [(lit "PERIOD", [VInt 1]); (lit "SUM", [VInt 2])]);
    simpl; tauto.
Defined.
